(** * Image orientation labeler: the sliding-window prefetch cache

    A shallow embedding of [src/image-orientation-labeler/app.py]: the
    [ImageLoader] background thread, the [OrientationLabeler] window and its
    handlers, and the event loop that interleaves them.

    Conventions of the embedding.
    - Python integers are [Z]; [len(xs)] is [len xs].
    - The [cache] dictionary is a [gmap Z Pixmap]; the [results] dictionary,
      whose order is observable through [json.dump], is an association list
      in insertion order.
    - [ImageLoader] objects are shared between the window (which sets their
      [running] flag) and their own thread (which reads it), so they live in
      a store [heap] and [self.loader] is a reference into it.
    - [image_ready] is emitted from the loader thread and received by a slot
      of the window, so Qt queues it: the emission appends to [events] and
      the event loop later delivers it to [on_image_loaded].
    - One step of the whole program is one [Event]: a handler of the window
      run to completion, or one step of one loader thread.  A handler is
      atomic with respect to the threads: a thread only reads its own flag
      and appends to the queue, which no handler reads, so what it does
      while a handler runs can as well be done before or after it.
    - Decoding is a function of the folder and the file name, and writing
      the output file succeeds; what Qt and [json] do is taken from their
      documentation. *)

From Stdlib Require Import ZArith String Ascii List Lia.
From stdpp Require Import base option list gmap fin_maps strings pretty.

(** ** Python and Qt primitives *)

Definition len {A} (l : list A) : Z := Z.of_nat (length l).

(** [l[i]], with Python's negative indices; [None] is [IndexError]. *)
Definition getitem {A} (l : list A) (i : Z) : option A :=
  if (i <? 0)%Z
  then (if (0 <=? len l + i)%Z then l !! Z.to_nat (len l + i) else None)
  else l !! Z.to_nat i.

(** [str.lower] on the ASCII letters, the only ones that can turn a name
    into one ending in a recognised extension. *)
Definition lower_ascii (c : ascii) : ascii :=
  let n := nat_of_ascii c in
  if (Nat.leb 65 n && Nat.leb n 90)%bool then ascii_of_nat (n + 32) else c.

Fixpoint lower (s : string) : string :=
  match s with
  | EmptyString => EmptyString
  | String c r => String (lower_ascii c) (lower r)
  end.

Definition endswith1 (s suffix : string) : bool :=
  let n := String.length s in
  let m := String.length suffix in
  (Nat.leb m n && String.eqb (substring (n - m) m s) suffix)%bool.

(** [s.endswith(tuple)] *)
Definition endswith (s : string) (suffixes : list string) : bool :=
  existsb (endswith1 s) suffixes.

Definition extensions : list string :=
  [".png"; ".jpg"; ".jpeg"; ".gif"; ".bmp"; ".tiff"; ".tif"]%string.

(** The loop of [load_folder] over [sorted(os.listdir(folder))]. *)
Definition recognized (listing : list string) : list string :=
  List.filter (fun f => endswith (lower f) extensions) listing.

(** [d[k] = v] on an insertion-ordered dictionary. *)
Fixpoint dict_set (k v : string) (d : list (string * string))
  : list (string * string) :=
  match d with
  | [] => [(k, v)]
  | (k', v') :: r =>
      if String.eqb k' k then (k', v) :: r else (k', v') :: dict_set k v r
  end.

Definition newline : string := String "010"%char EmptyString.

Definition PREFETCH_COUNT : Z := 20.

(** A [QPixmap]: either the null pixmap or a decoded image. *)
Inductive Pixmap (Asset : Type) : Type :=
| Null
| Image (a : Asset).
Arguments Null {Asset}.
Arguments Image {Asset} a.

Definition isNull {Asset} (p : Pixmap Asset) : bool :=
  match p with Null => true | Image _ => false end.

(** Where the thread of an [ImageLoader] stands in [run]. *)
Inductive Thread : Type :=
| AtLoop (i : Z)      (* the [for] is about to take index [i] from the range *)
| Decoding (i : Z)    (* the flag was read as set; decoding item [i] *)
| Finished.           (* [run] has returned *)

Record ImageLoader : Type := {
  ld_images : list string;
  ld_folder : string;
  start_index : Z;
  running : bool;
  thread : Thread
}.

Definition set_thread (t : Thread) (l : ImageLoader) : ImageLoader :=
  {| ld_images := ld_images l; ld_folder := ld_folder l;
     start_index := start_index l; running := running l; thread := t |}.

(** [ImageLoader.stop] *)
Definition stop (l : ImageLoader) : ImageLoader :=
  {| ld_images := ld_images l; ld_folder := ld_folder l;
     start_index := start_index l; running := false; thread := thread l |}.

(** [QThread.isRunning] *)
Definition isRunning (l : ImageLoader) : bool :=
  match thread l with Finished => false | _ => true end.

(** The upper end of the [range] of [ImageLoader.run]. *)
Definition range_stop (l : ImageLoader) : Z :=
  Z.min (start_index l + PREFETCH_COUNT) (len (ld_images l)).

(** The indices the loader is asked to decode. *)
Definition loader_range (l : ImageLoader) : list Z :=
  map (fun k => (start_index l + Z.of_nat k)%Z)
      (seq 0 (Z.to_nat (range_stop l - start_index l))).

(** ** A sample instance

    Stand-ins for the decoder, the scaler and the JSON string encoder, on
    which the model can be run. *)

Definition quote : string := String "034"%char EmptyString.

Definition sample_QPixmap (folder name : string) : Pixmap string :=
  if String.eqb name "img3.png" then Null
  else Image (folder +:+ "/" +:+ name).

Definition sample_scale (a : string) : string := "780x430:" +:+ a.

Definition sample_json_string (s : string) : string := quote +:+ s +:+ quote.

Definition sample_root : string := "/repo".

Definition sample_listing (n : nat) : list string :=
  map (fun k => "img" +:+ pretty k +:+ ".png") (seq 0 n).

(** ** The preparation pipeline

    [src/OCR-data-preaparation-pipeline]: [Models.py], [Service.py],
    [utils.py] and [pipeline.py].  The pipeline reads a label file of the
    kind the labeler writes and joins it with the images of a folder.  What
    the file system, PIL, [pathlib], pydantic and the encodings of the output
    streams do is a parameter: opening an image, reading its transcript,
    validating a record, printing an error line and writing the two files
    either succeed or raise.  Reading the orientation file and creating the
    data directory are taken to have succeeded. *)

Module Pipeline.

Inductive Orientation := PORTRAIT | LANDSCAPE.

(** The value of a member of the [str] enumeration. *)
Definition Orientation_value (o : Orientation) : string :=
  match o with
  | PORTRAIT => "portrait"
  | LANDSCAPE => "landscape"
  end.

(** A value of the dictionary [read_json] returns: a string, or any other
    JSON value. *)
Inductive Json := JString (s : string) | JOther.

Record OCRData := {
  name : string;
  url : string;
  orientation : Orientation;
  transcript : string
}.

Definition get_image_url (name : string) : string :=
  "https://s3.us-east-1.amazonaws.com/bec.data/OCR-Benchmark/B1/" +:+ name.

Definition determine_orientation (label : Json) : Orientation :=
  match label with
  | JString s => if String.eqb s "portrait" then PORTRAIT else LANDSCAPE
  | JOther => LANDSCAPE
  end.

Definition image_extensions : list string :=
  [".jpg"; ".jpeg"; ".png"; ".tif"; ".tiff";
   ".JPG"; ".JPEG"; ".PNG"; ".TIF"; ".TIFF"]%string.

(** What [process_images] leaves behind when it returns: the records of
    [b1.json], the text of [failed_b1.txt] and the two counts it prints. *)
Record Output := {
  b1 : list OCRData;
  failed_b1 : string;
  processed : nat;
  failed : nat
}.

Section Process.

Variable Image : Type.

(** [load_image] and [ocr_image] on the files of the folder; [None] is an
    exception. *)
Variable load_image : string -> option Image.
Variable ocr_image : string -> option string.

(** [Path.suffix] and [Path.stem] of a file name. *)
Variable suffix : string -> string.
Variable stem : string -> string.

(** [OCRData(...)]: pydantic validates the fields and raises
    [ValidationError] when it refuses one (a name that is not valid Unicode,
    for instance). *)
Variable validates : OCRData -> bool.

(** [print] and [write] raise [UnicodeEncodeError] on a text that the
    encoding of the stream cannot express: [prints name] says that the error
    line about [name] can be printed, [writes line] that the line can be
    written to the file of failed ids, [dumps records] that [save_json] can
    write the records. *)
Variable prints : string -> bool.
Variable writes : string -> bool.
Variable dumps : list OCRData -> bool.

(** The [try] block of the loop for one image; [None] is the [except]
    branch.  [orientations[name]] raises [KeyError] on a missing name. *)
Definition try_image (orientations : gmap string Json) (name : string)
  : option OCRData :=
  match load_image name with
  | None => None
  | Some image =>
      match ocr_image (stem name) with
      | None => None
      | Some transcript =>
          match orientations !! name with
          | None => None
          | Some label =>
              let ocr_data :=
                {| name := name;
                   url := get_image_url name;
                   orientation := determine_orientation label;
                   transcript := transcript |} in
              if validates ocr_data then Some ocr_data else None
          end
      end
  end.

(** The loop over [images], from the two lists built so far; [None] when an
    exception leaves the [except] branch, whose [print] comes before the
    [append]. *)
Definition process_loop (orientations : gmap string Json)
    (images : list string) (lists : list OCRData * list string)
  : option (list OCRData * list string) :=
  foldl (fun state name =>
           match state with
           | None => None
           | Some (ocr_data_list, failed_ids) =>
               match try_image orientations name with
               | Some ocr_data =>
                   Some (ocr_data_list ++ [ocr_data], failed_ids)
               | None =>
                   if prints name
                   then Some (ocr_data_list, failed_ids ++ [name])
                   else None
               end
           end)
        (Some lists) images.

(** [save_failed_ids]: the text written to the file, [None] when a [write]
    raises. *)
Definition save_failed_ids (failed_ids : list string) : option string :=
  foldl (fun file fid =>
           match file with
           | None => None
           | Some text =>
               let line := fid +:+ String "010"%char EmptyString in
               if writes line then Some (text +:+ line) else None
           end)
        (Some EmptyString) failed_ids.

(** The images of the folder: [f.suffix in image_extensions]. *)
Definition images_of (listing : list string) : list string :=
  List.filter (fun f => existsb (String.eqb (suffix f)) image_extensions)
    listing.

(** [process_images], from the names [folder_path.iterdir()] yields and the
    dictionary read from the orientation file; [None] when an exception
    escapes. *)
Definition process_images (listing : list string)
    (orientations : gmap string Json) : option Output :=
  match process_loop orientations (images_of listing) ([], []) with
  | None => None
  | Some (ocr_data_list, failed_ids) =>
      if dumps ocr_data_list
      then match save_failed_ids failed_ids with
           | Some text =>
               Some {| b1 := ocr_data_list;
                       failed_b1 := text;
                       processed := length ocr_data_list;
                       failed := length failed_ids |}
           | None => None
           end
      else None
  end.

End Process.

End Pipeline.

(** A sample folder for the pipeline: [a.png] and [d.png] can be opened and
    have a transcript, [c.png] cannot be opened, the orientation file has no
    entry for [d.png], and the error line about [e.png] cannot be printed. *)

Fixpoint last_dot (s : string) : option nat :=
  match s with
  | EmptyString => None
  | String c r =>
      match last_dot r with
      | Some i => Some (S i)
      | None => if Ascii.eqb c "."%char then Some 0 else None
      end
  end.

Definition sample_suffix (name : string) : string :=
  match last_dot name with
  | Some (S i) =>
      if S i <? String.length name - 1
      then substring (S i) (String.length name - S i) name
      else EmptyString
  | _ => EmptyString
  end.

Definition sample_stem (name : string) : string :=
  match last_dot name with
  | Some (S i) =>
      if S i <? String.length name - 1 then substring 0 (S i) name else name
  | _ => name
  end.

Definition sample_load_image (name : string) : option unit :=
  if (String.eqb name "c.png" || String.eqb name "e.png")%bool
  then None else Some tt.

Definition sample_ocr_image (stem : string) : option string :=
  Some ("text of " +:+ stem).

Definition sample_orientations : gmap string Pipeline.Json :=
  <["a.png" := Pipeline.JString "portrait"]>
    (<["c.png" := Pipeline.JString "landscape"]> ∅).

Definition sample_prints (name : string) : bool :=
  negb (String.eqb name "e.png").

Section Labeler.

(** The decoded form of an image. *)
Variable Asset : Type.

(** [QPixmap(os.path.join(folder, name))]: the file decoded, or the null
    pixmap when it is missing or corrupt. *)
Variable QPixmap : string -> string -> Pixmap Asset.

(** [pixmap.scaled(780, 430, KeepAspectRatio, SmoothTransformation)] on the
    image of a pixmap that is not null. *)
Variable scale : Asset -> Asset.

(** The string encoder of [json.dump]: the text of a JSON string, quotes
    included. *)
Variable json_string : string -> string.

(** [Path(__file__).parent.parent.parent] *)
Variable project_root : string.

(** [QPixmap.scaled]; Qt returns a null pixmap for a null pixmap. *)
Definition scaled (p : Pixmap Asset) : Pixmap Asset :=
  match p with Null => Null | Image a => Image (scale a) end.

(** ** The loader thread *)

(** One step of [ImageLoader.run], with the signals it emits. *)
Definition worker_step (l : ImageLoader) : ImageLoader * list (Z * Pixmap Asset) :=
  match thread l with
  | AtLoop i =>
      if (i <? range_stop l)%Z
      then (if running l
            then (set_thread (Decoding i) l, [])
            else (set_thread Finished l, []))          (* break *)
      else (set_thread Finished l, [])
  | Decoding i =>
      match getitem (ld_images l) i with
      | None => (set_thread Finished l, [])            (* IndexError *)
      | Some img_name =>
          let pixmap := QPixmap (ld_folder l) img_name in
          if isNull pixmap
          then (set_thread (AtLoop (i + 1)) l, [])
          else (set_thread (AtLoop (i + 1)) l, [(i, scaled pixmap)])
      end
  | Finished => (l, [])
  end.

(** A bound on the steps the thread still takes before [run] returns. *)
Definition steps_left (l : ImageLoader) : nat :=
  match thread l with
  | AtLoop i => 2 * Z.to_nat (range_stop l - i) + 1
  | Decoding i => 2 * Z.to_nat (range_stop l - (i + 1)) + 2
  | Finished => 0
  end.

Fixpoint run_thread (fuel : nat) (l : ImageLoader)
  : ImageLoader * list (Z * Pixmap Asset) :=
  match fuel with
  | O => (l, [])
  | S n =>
      let '(l1, e1) := worker_step l in
      let '(l2, e2) := run_thread n l1 in
      (l2, e1 ++ e2)
  end.

(** [QThread.wait]: the caller blocks while the thread runs to its end. *)
Definition wait (l : ImageLoader) : ImageLoader * list (Z * Pixmap Asset) :=
  run_thread (steps_left l) l.

(** ** The window *)

Record Widgets : Type := {
  image_label : option (Pixmap Asset);   (* [None]: no pixmap set *)
  name_label : string;
  progress_label : string;
  status_label : string;
  portrait_btn : bool;                   (* enabled *)
  landscape_btn : bool
}.

Record State : Type := {
  images : list string;
  current_index : Z;
  results : list (string * string);
  image_folder : string;                 (* [""] stands for [None] *)
  cache : gmap Z (Pixmap Asset);
  loaded_up_to : Z;
  loader : option nat;                   (* reference into [heap] *)
  ui : Widgets;
  heap : list ImageLoader;               (* every loader created so far *)
  events : list (Z * Pixmap Asset);      (* queued [image_ready] signals *)
  files : list (string * string)         (* writes, the newest first *)
}.

Definition w_image (p : option (Pixmap Asset)) (w : Widgets) : Widgets :=
  {| image_label := p; name_label := name_label w;
     progress_label := progress_label w; status_label := status_label w;
     portrait_btn := portrait_btn w; landscape_btn := landscape_btn w |}.

Definition w_name (t : string) (w : Widgets) : Widgets :=
  {| image_label := image_label w; name_label := t;
     progress_label := progress_label w; status_label := status_label w;
     portrait_btn := portrait_btn w; landscape_btn := landscape_btn w |}.

Definition w_progress (t : string) (w : Widgets) : Widgets :=
  {| image_label := image_label w; name_label := name_label w;
     progress_label := t; status_label := status_label w;
     portrait_btn := portrait_btn w; landscape_btn := landscape_btn w |}.

Definition w_status (t : string) (w : Widgets) : Widgets :=
  {| image_label := image_label w; name_label := name_label w;
     progress_label := progress_label w; status_label := t;
     portrait_btn := portrait_btn w; landscape_btn := landscape_btn w |}.

Definition w_buttons (b : bool) (w : Widgets) : Widgets :=
  {| image_label := image_label w; name_label := name_label w;
     progress_label := progress_label w; status_label := status_label w;
     portrait_btn := b; landscape_btn := b |}.

Definition set_images (x : list string) (s : State) : State :=
  {| images := x; current_index := current_index s; results := results s;
     image_folder := image_folder s; cache := cache s;
     loaded_up_to := loaded_up_to s; loader := loader s; ui := ui s;
     heap := heap s; events := events s; files := files s |}.

Definition set_current_index (x : Z) (s : State) : State :=
  {| images := images s; current_index := x; results := results s;
     image_folder := image_folder s; cache := cache s;
     loaded_up_to := loaded_up_to s; loader := loader s; ui := ui s;
     heap := heap s; events := events s; files := files s |}.

Definition set_results (x : list (string * string)) (s : State) : State :=
  {| images := images s; current_index := current_index s; results := x;
     image_folder := image_folder s; cache := cache s;
     loaded_up_to := loaded_up_to s; loader := loader s; ui := ui s;
     heap := heap s; events := events s; files := files s |}.

Definition set_image_folder (x : string) (s : State) : State :=
  {| images := images s; current_index := current_index s; results := results s;
     image_folder := x; cache := cache s;
     loaded_up_to := loaded_up_to s; loader := loader s; ui := ui s;
     heap := heap s; events := events s; files := files s |}.

Definition set_cache (x : gmap Z (Pixmap Asset)) (s : State) : State :=
  {| images := images s; current_index := current_index s; results := results s;
     image_folder := image_folder s; cache := x;
     loaded_up_to := loaded_up_to s; loader := loader s; ui := ui s;
     heap := heap s; events := events s; files := files s |}.

Definition set_loaded_up_to (x : Z) (s : State) : State :=
  {| images := images s; current_index := current_index s; results := results s;
     image_folder := image_folder s; cache := cache s;
     loaded_up_to := x; loader := loader s; ui := ui s;
     heap := heap s; events := events s; files := files s |}.

Definition set_loader (x : option nat) (s : State) : State :=
  {| images := images s; current_index := current_index s; results := results s;
     image_folder := image_folder s; cache := cache s;
     loaded_up_to := loaded_up_to s; loader := x; ui := ui s;
     heap := heap s; events := events s; files := files s |}.

Definition set_ui (x : Widgets) (s : State) : State :=
  {| images := images s; current_index := current_index s; results := results s;
     image_folder := image_folder s; cache := cache s;
     loaded_up_to := loaded_up_to s; loader := loader s; ui := x;
     heap := heap s; events := events s; files := files s |}.

Definition set_heap (x : list ImageLoader) (s : State) : State :=
  {| images := images s; current_index := current_index s; results := results s;
     image_folder := image_folder s; cache := cache s;
     loaded_up_to := loaded_up_to s; loader := loader s; ui := ui s;
     heap := x; events := events s; files := files s |}.

Definition set_events (x : list (Z * Pixmap Asset)) (s : State) : State :=
  {| images := images s; current_index := current_index s; results := results s;
     image_folder := image_folder s; cache := cache s;
     loaded_up_to := loaded_up_to s; loader := loader s; ui := ui s;
     heap := heap s; events := x; files := files s |}.

Definition set_files (x : list (string * string)) (s : State) : State :=
  {| images := images s; current_index := current_index s; results := results s;
     image_folder := image_folder s; cache := cache s;
     loaded_up_to := loaded_up_to s; loader := loader s; ui := ui s;
     heap := heap s; events := events s; files := x |}.

Definition on_ui (f : Widgets -> Widgets) (s : State) : State :=
  set_ui (f (ui s)) s.

(** The window as [__init__] and [setup_ui] leave it. *)
Definition init : State :=
  {| images := []; current_index := 0; results := []; image_folder := "";
     cache := ∅; loaded_up_to := 0; loader := None;
     ui := {| image_label := None; name_label := ""; progress_label := "";
              status_label := "Press P for Portrait, L for Landscape";
              portrait_btn := false; landscape_btn := false |};
     heap := []; events := []; files := [] |}.

(** *** Operations on the loader the window refers to *)

Definition loader_isRunning (id : nat) (s : State) : bool :=
  match heap s !! id with
  | Some l => isRunning l
  | None => false
  end.

Definition loader_stop (id : nat) (s : State) : State :=
  set_heap (alter stop id (heap s)) s.

Definition loader_wait (id : nat) (s : State) : State :=
  match heap s !! id with
  | Some l =>
      let '(l', es) := wait l in
      set_events (events s ++ es) (set_heap (<[id := l']> (heap s)) s)
  | None => s
  end.

(** One step of the thread of loader [id], scheduled by the system. *)
Definition thread_step (id : nat) (s : State) : State :=
  match heap s !! id with
  | Some l =>
      let '(l', es) := worker_step l in
      set_events (events s ++ es) (set_heap (<[id := l']> (heap s)) s)
  | None => s
  end.

(** *** Handlers of [OrientationLabeler] *)

(** The first statement of [start_preload]: a loader that is still running
    is stopped and waited for. *)
Definition cancel_and_join (s : State) : State :=
  match loader s with
  | Some id =>
      if loader_isRunning id s then loader_wait id (loader_stop id s) else s
  | None => s
  end.

(** The rest of [start_preload]: the new loader is created and started. *)
Definition spawn (from_index : Z) (s : State) : State :=
  let l := {| ld_images := images s; ld_folder := image_folder s;
              start_index := from_index; running := true;
              thread := AtLoop from_index |} in
  set_loaded_up_to (from_index + PREFETCH_COUNT)
    (set_loader (Some (length (heap s))) (set_heap (heap s ++ [l]) s)).

Definition start_preload (from_index : Z) (s : State) : State :=
  spawn from_index (cancel_and_join s).

(** [cache.keys()]; only membership and the number of keys are used. *)
Definition keys (m : gmap Z (Pixmap Asset)) : list Z := (map_to_list m).*1.

(** The number the progress line shows as preloaded. *)
Definition count_at_or_after (m : gmap Z (Pixmap Asset)) (index : Z) : Z :=
  len (List.filter (fun k => (index <=? k)%Z) (keys m)).

Definition progress_text (position total cached : Z) : string :=
  pretty position +:+ " / " +:+ pretty total +:+ "  â€¢  "
    +:+ pretty cached +:+ " preloaded".

Definition update_progress (s : State) : State :=
  on_ui (w_progress
           (progress_text (current_index s + 1) (len (images s))
              (count_at_or_after (cache s) (current_index s)))) s.

(** [self.image_label.pixmap() is None]: in PyQt6 [QLabel.pixmap()] returns
    the pixmap of the label by value, a null [QPixmap] when the label has
    none, and never [None]. *)
Definition pixmap_is_None (w : Widgets) : bool := false.

(** The middle of [on_image_loaded]: the image that was waited for would be
    shown. *)
Definition show_if_waiting (index : Z) (pixmap : Pixmap Asset) (s : State)
  : State :=
  if ((index =? current_index s)%Z && pixmap_is_None (ui s))%bool
  then on_ui (w_image (Some pixmap)) s
  else s.

Definition on_image_loaded (index : Z) (pixmap : Pixmap Asset) (s : State)
  : State :=
  update_progress
    (show_if_waiting index pixmap
       (set_cache (<[index := pixmap]> (cache s)) s)).

Definition cleanup_cache (s : State) : State :=
  set_cache
    (foldl (fun m k => delete k m) (cache s)
       (List.filter (fun k => (k <? current_index s - 5)%Z) (keys (cache s))))
    s.

Definition output_path : string := project_root +:+ "/data/orientations.json".

Definition json_item (kv : string * string) : string :=
  "  " +:+ json_string kv.1 +:+ ": " +:+ json_string kv.2.

(** [json.dump(d, f, indent=2)] for a dictionary of strings. *)
Definition json_dump (d : list (string * string)) : string :=
  match d with
  | [] => "{}"
  | _ => "{" +:+ newline
           +:+ String.concat ("," +:+ newline) (map json_item d)
           +:+ newline +:+ "}"
  end.

(** [if self.loader: self.loader.stop()] *)
Definition stop_current (s : State) : State :=
  match loader s with
  | Some id => loader_stop id s
  | None => s
  end.

(** [with open(output_path, 'w') as f: json.dump(self.results, f, indent=2)] *)
Definition write_results (s : State) : State :=
  set_files ((output_path, json_dump (results s)) :: files s) s.

Definition finish (s : State) : State :=
  on_ui (w_status ("Saved to: " +:+ output_path))
    (write_results
       (on_ui (w_buttons false)
          (on_ui (w_progress "")
             (on_ui (w_name "All done!")
                (on_ui (w_image None) (stop_current s)))))).

(** The cache lookup of [show_current_image], with its synchronous
    fallback. *)
Definition present (img_name : string) (s : State) : State :=
  match cache s !! current_index s with
  | Some pixmap => on_ui (w_image (Some pixmap)) s
  | None =>
      on_ui (w_status "Press P for Portrait, L for Landscape")
        (on_ui (w_image (Some (scaled (QPixmap (image_folder s) img_name))))
           (on_ui (w_status "Loading...") (on_ui (w_image None) s)))
  end.

(** The restart test of [show_current_image]. *)
Definition ensure_coverage (s : State) : State :=
  if (loaded_up_to s - PREFETCH_COUNT / 2 <=? current_index s)%Z
  then start_preload (loaded_up_to s) s
  else s.

Definition show_current_image (s : State) : State :=
  if (len (images s) <=? current_index s)%Z then finish s
  else
    match getitem (images s) (current_index s) with
    | None => s                                        (* IndexError *)
    | Some img_name =>
        cleanup_cache
          (ensure_coverage
             (present img_name (update_progress (on_ui (w_name img_name) s))))
    end.

Definition label_image (orientation : string) (s : State) : State :=
  if (match images s with [] => true | _ => false end
      || (len (images s) <=? current_index s)%Z)%bool
  then s
  else
    match getitem (images s) (current_index s) with
    | None => s                                        (* IndexError *)
    | Some img_name =>
        show_current_image
          (set_current_index (current_index s + 1)
             (set_results (dict_set img_name orientation (results s)) s))
    end.

(** [load_folder]: [folder] is what the dialog returned ([""] when it was
    dismissed) and [listing] is [sorted(os.listdir(folder))]. *)
Definition load_folder (folder : string) (listing : list string) (s : State)
  : State :=
  if String.eqb folder "" then s
  else
    match recognized listing with
    | [] =>
        on_ui (w_name "No images found in folder")
          (set_loaded_up_to 0
             (set_cache ∅ (set_images [] (set_image_folder folder s))))
    | imgs =>
        show_current_image
          (start_preload 0
             (on_ui (w_buttons true)
                (set_results []
                   (set_current_index 0
                      (set_loaded_up_to 0
                         (set_cache ∅
                            (set_images imgs
                               (set_image_folder folder s))))))))
    end.

Definition keyPressEvent (text : string) (s : State) : State :=
  let key := lower text in
  if String.eqb key "p" then label_image "portrait" s
  else if String.eqb key "l" then label_image "landscape" s
  else s.

(** The [clicked] connections of the two buttons; a disabled button does not
    emit. *)
Definition portrait_clicked (s : State) : State :=
  if portrait_btn (ui s) then label_image "portrait" s else s.

Definition landscape_clicked (s : State) : State :=
  if landscape_btn (ui s) then label_image "landscape" s else s.

Definition closeEvent (s : State) : State :=
  match loader s with
  | Some id => loader_wait id (loader_stop id s)
  | None => s
  end.

(** ** The program as a transition system *)

Inductive Event : Type :=
| LoadFolder (folder : string) (listing : list string)
| Label (orientation : string)   (* a call of [label_image] *)
| ImageReady                     (* the oldest queued signal is delivered *)
| LoaderStep (id : nat).         (* the thread of loader [id] takes a step *)

Definition step (e : Event) (s : State) : State :=
  match e with
  | LoadFolder folder listing => load_folder folder listing s
  | Label orientation => label_image orientation s
  | ImageReady =>
      match events s with
      | [] => s
      | (index, pixmap) :: q => on_image_loaded index pixmap (set_events q s)
      end
  | LoaderStep id => thread_step id s
  end.

Definition run (tr : list Event) (s : State) : State :=
  foldl (fun s e => step e s) s tr.

(** The events of one session: everything but a folder (re)load. *)
Definition session_event (e : Event) : bool :=
  match e with LoadFolder _ _ => false | _ => true end.

(** The orientations passed to [label_image] along a trace. *)
Fixpoint labels (tr : list Event) : list string :=
  match tr with
  | [] => []
  | Label o :: r => o :: labels r
  | _ :: r => labels r
  end.

(** The loader the window refers to, if any. *)
Definition current_loader (s : State) : option ImageLoader :=
  match loader s with
  | Some id => heap s !! id
  | None => None
  end.

(** The loaders whose thread has not returned yet. *)
Definition running_loaders (s : State) : list nat :=
  List.filter (fun id => loader_isRunning id s) (seq 0 (length (heap s))).

(** ** Predicates on states and traces *)

(** Only the loader the window refers to can still be running. *)
Definition only_current_runs (s : State) : Prop :=
  forall id l, heap s !! id = Some l -> isRunning l = true -> loader s = Some id.

(** No loader at all is running. *)
Definition quiescent (s : State) : Prop :=
  forall id l, heap s !! id = Some l -> isRunning l = false.

(** The state in which a session starts: a folder is loaded into the window
    as it was created. *)
Definition session_start (folder : string) (listing : list string) : State :=
  load_folder folder listing init.

(** A trace of one session: no folder is loaded along the way. *)
Definition session_trace (tr : list Event) : Prop :=
  Forall (fun e => session_event e = true) tr.

(** How far the coverage reaches when item [p] is the last one presented. *)
Definition coverage (p : Z) : Z := (20 * ((p + 10) / 20 + 1))%Z.

(** [pm] is what decoding and scaling item [k] of [imgs] gives, and the
    decoding succeeded. *)
Definition decoded_from (imgs : list string) (folder : string)
    (k : Z) (pm : Pixmap Asset) : Prop :=
  exists name a, getitem imgs k = Some name
    /\ QPixmap folder name = Image a /\ pm = Image (scale a).

(** ** Further definitions: the whole run of a loader, the operator's
    actions *)

(** What the loop body of [ImageLoader.run] emits for index [k]. *)
Definition signal_for (l : ImageLoader) (k : Z) : list (Z * Pixmap Asset) :=
  match getitem (ld_images l) k with
  | Some img_name =>
      match QPixmap (ld_folder l) img_name with
      | Null => []
      | Image a => [(k, Image (scale a))]
      end
  | None => []
  end.

(** The thread of a loader is somewhere inside its range. *)
Definition thread_in_range (l : ImageLoader) : Prop :=
  match thread l with
  | AtLoop i => (start_index l <= i)%Z
  | Decoding i => (start_index l <= i < range_stop l)%Z
  | Finished => True
  end.

(** Nothing in the window is stale: every loader still running works on
    the current images, from a start at least 20 below [loaded_up_to], and
    every queued signal and every cache entry was decoded from the current
    images, at an index below [loaded_up_to]. *)
Definition no_stale (s : State) : Prop :=
  (0 <= loaded_up_to s)%Z
  /\ (forall id l, heap s !! id = Some l -> isRunning l = true ->
        ld_images l = images s /\ ld_folder l = image_folder s
        /\ (0 <= start_index l)%Z
        /\ (start_index l + PREFETCH_COUNT <= loaded_up_to s)%Z
        /\ thread_in_range l)
  /\ (forall k pm, (k, pm) ∈ events s ->
        decoded_from (images s) (image_folder s) k pm
        /\ (0 <= k < loaded_up_to s)%Z)
  /\ (forall k pm, cache s !! k = Some pm ->
        decoded_from (images s) (image_folder s) k pm
        /\ (0 <= k < loaded_up_to s)%Z).

(** The loaders tile the sequence: loader [id] starts at [20 * id], the
    window refers to the last one, and [loaded_up_to] is where the next one
    would start. *)
Definition tiled (s : State) : Prop :=
  loaded_up_to s = (PREFETCH_COUNT * len (heap s))%Z
  /\ loader s = Some (length (heap s) - 1)
  /\ forall id l, heap s !! id = Some l ->
       start_index l = (PREFETCH_COUNT * Z.of_nat id)%Z
       /\ ld_images l = images s
       /\ thread_in_range l.

(** Every index queued or cached is an index of the sequence below
    [loaded_up_to]. *)
Definition keys_covered (s : State) : Prop :=
  (forall k p, (k, p) ∈ events s ->
               (0 <= k < loaded_up_to s)%Z /\ (k < len (images s))%Z)
  /\ (forall k p, cache s !! k = Some p ->
                  (0 <= k < loaded_up_to s)%Z /\ (k < len (images s))%Z).

(** The two invariants together. *)
Definition covered (s : State) : Prop := tiled s /\ keys_covered s.

(** What the operator and the system can do to the window. *)
Inductive Action : Type :=
| ChooseFolder (folder : string) (listing : list string)
| PressKey (text : string)
| ClickPortrait
| ClickLandscape
| DeliverSignal
| ScheduleLoader (id : nat).

Definition act (a : Action) (s : State) : State :=
  match a with
  | ChooseFolder folder listing => load_folder folder listing s
  | PressKey text => keyPressEvent text s
  | ClickPortrait => portrait_clicked s
  | ClickLandscape => landscape_clicked s
  | DeliverSignal => step ImageReady s
  | ScheduleLoader id => thread_step id s
  end.

Definition perform (acts : list Action) (s : State) : State :=
  foldl (fun s a => act a s) s acts.

(** ** The loader thread runs to its end *)

Lemma worker_step_images l : ld_images (worker_step l).1 = ld_images l.
Proof. unfold worker_step. repeat case_match; simpl; congruence. Qed.

Lemma worker_step_folder l : ld_folder (worker_step l).1 = ld_folder l.
Proof. unfold worker_step. repeat case_match; simpl; congruence. Qed.

Lemma worker_step_start l : start_index (worker_step l).1 = start_index l.
Proof. unfold worker_step. repeat case_match; simpl; congruence. Qed.

Lemma worker_step_running l : running (worker_step l).1 = running l.
Proof. unfold worker_step. repeat case_match; simpl; congruence. Qed.

Lemma worker_step_range_stop l : range_stop (worker_step l).1 = range_stop l.
Proof.
  unfold range_stop. now rewrite worker_step_images, worker_step_start.
Qed.

Lemma worker_step_returned l :
  isRunning l = false -> worker_step l = (l, []).
Proof.
  unfold isRunning, worker_step. destruct (thread l); congruence.
Qed.

Lemma worker_step_stays_returned l :
  isRunning l = false -> isRunning (worker_step l).1 = false.
Proof. intros H. now rewrite (worker_step_returned l H). Qed.

Lemma steps_left_decreases l :
  isRunning l = true -> steps_left (worker_step l).1 < steps_left l.
Proof.
  unfold isRunning, steps_left, worker_step, range_stop.
  destruct (thread l) as [i|i|] eqn:Ht; [| |discriminate]; intros _.
  - destruct (Z.ltb_spec i (Z.min (start_index l + PREFETCH_COUNT)
                                  (len (ld_images l)))); simpl.
    + destruct (running l); simpl; lia.
    + lia.
  - destruct (getitem (ld_images l) i); simpl; [|lia].
    destruct (isNull _); simpl; lia.
Qed.

Lemma steps_left_returned l : steps_left l = 0 -> isRunning l = false.
Proof.
  unfold steps_left, isRunning. destruct (thread l); [lia|lia|reflexivity].
Qed.

Lemma run_thread_returns fuel : forall l,
  steps_left l <= fuel -> isRunning (run_thread fuel l).1 = false.
Proof.
  induction fuel as [|n IH]; intros l Hle; simpl.
  - apply steps_left_returned. lia.
  - destruct (worker_step l) as [l1 e1] eqn:Hw.
    specialize (IH l1). destruct (run_thread n l1) as [l2 e2]. simpl in *.
    apply IH. replace l1 with (worker_step l).1 by now rewrite Hw.
    destruct (isRunning l) eqn:Hrun.
    + pose proof (steps_left_decreases l Hrun). lia.
    + rewrite (worker_step_returned l Hrun). simpl.
      unfold steps_left, isRunning in *.
      destruct (thread l); discriminate || lia.
Qed.

(** [wait] always comes back, and the thread has returned by then. *)
Lemma wait_returns l : isRunning (wait l).1 = false.
Proof. unfold wait. now apply run_thread_returns. Qed.

Lemma run_thread_running fuel : forall l,
  running (run_thread fuel l).1 = running l.
Proof.
  induction fuel as [|n IH]; intros l; simpl; [reflexivity|].
  destruct (worker_step l) as [l1 e1] eqn:Hw.
  specialize (IH l1). destruct (run_thread n l1) as [l2 e2]. simpl in *.
  rewrite IH. replace l1 with (worker_step l).1 by now rewrite Hw.
  apply worker_step_running.
Qed.

Lemma run_thread_images fuel : forall l,
  ld_images (run_thread fuel l).1 = ld_images l
  /\ ld_folder (run_thread fuel l).1 = ld_folder l
  /\ start_index (run_thread fuel l).1 = start_index l.
Proof.
  induction fuel as [|n IH]; intros l; simpl; [auto|].
  destruct (worker_step l) as [l1 e1] eqn:Hw.
  specialize (IH l1). destruct (run_thread n l1) as [l2 e2]. simpl in *.
  replace l1 with (worker_step l).1 in IH by now rewrite Hw.
  rewrite worker_step_images, worker_step_folder, worker_step_start in IH.
  exact IH.
Qed.

(** ** What the handlers leave alone *)

(** Projections of updated records, and of the handlers that are plain
    sequences of updates. *)
Ltac proj :=
  cbn [images current_index results image_folder cache loaded_up_to loader ui
       heap events files image_label name_label progress_label status_label
       portrait_btn landscape_btn
       set_images set_current_index set_results set_image_folder set_cache
       set_loaded_up_to set_loader set_ui set_heap set_events set_files
       w_image w_name w_progress w_status w_buttons on_ui
       update_progress cleanup_cache write_results loader_stop spawn
       start_preload finish on_image_loaded] in *.

Ltac branches :=
  unfold show_current_image, label_image, ensure_coverage, present,
    show_if_waiting, cancel_and_join, stop_current, loader_wait, thread_step.

Ltac norm := repeat first [progress proj | progress branches].

Ltac frame :=
  intros; norm;
  repeat (match goal with
          | |- context [match ?x with _ => _ end] => destruct x eqn:?
          end; norm);
  first [reflexivity | congruence].

Lemma images_show_current_image s : images (show_current_image s) = images s.
Proof. frame. Qed.

Lemma images_label_image o s : images (label_image o s) = images s.
Proof. frame. Qed.

Lemma folder_label_image o s :
  image_folder (label_image o s) = image_folder s.
Proof. frame. Qed.

Lemma current_index_show_current_image s :
  current_index (show_current_image s) = current_index s.
Proof. frame. Qed.

Lemma results_show_current_image s :
  results (show_current_image s) = results s.
Proof. frame. Qed.

Lemma heap_show_if_waiting i p s : heap (show_if_waiting i p s) = heap s.
Proof. frame. Qed.

Lemma loader_show_if_waiting i p s : loader (show_if_waiting i p s) = loader s.
Proof. frame. Qed.

Lemma heap_present n s : heap (present n s) = heap s.
Proof. frame. Qed.

Lemma loader_present n s : loader (present n s) = loader s.
Proof. frame. Qed.

Lemma loader_cancel_and_join s : loader (cancel_and_join s) = loader s.
Proof. frame. Qed.

Lemma loader_thread_step id s : loader (thread_step id s) = loader s.
Proof. frame. Qed.

(** ** At most one loader runs *)

Lemma only_current_runs_ext s s' :
  heap s' = heap s -> loader s' = loader s ->
  only_current_runs s -> only_current_runs s'.
Proof. unfold only_current_runs. intros -> ->. auto. Qed.

Lemma only_current_runs_init : only_current_runs init.
Proof. intros id l H. discriminate. Qed.

Lemma isRunning_stop l : isRunning (stop l) = isRunning l.
Proof. reflexivity. Qed.

Lemma only_current_runs_stop id s :
  only_current_runs s -> only_current_runs (loader_stop id s).
Proof.
  intros H id' l'. proj. rewrite list_lookup_alter.
  destruct (decide (id = id')) as [->|Hne]; [|apply H].
  destruct (heap s !! id') as [l|] eqn:E; simpl; [|discriminate].
  intros [= <-]. rewrite isRunning_stop. now apply H.
Qed.

Lemma only_current_runs_thread_step id s :
  only_current_runs s -> only_current_runs (thread_step id s).
Proof.
  intros H. unfold thread_step. destruct (heap s !! id) as [l|] eqn:E; [|exact H].
  destruct (worker_step l) as [l1 es] eqn:Hw. intros id' l'. proj.
  rewrite list_lookup_insert_Some. intros [(-> & <- & _)|[Hne Hl']] Hrun.
  - apply (H id' l E). destruct (isRunning l) eqn:Hr; [reflexivity|].
    apply worker_step_stays_returned in Hr. rewrite Hw in Hr. simpl in Hr.
    congruence.
  - now apply (H id' l').
Qed.

(** After the first statement of [start_preload] no loader runs. *)
Lemma cancel_and_join_quiescent s :
  only_current_runs s -> quiescent (cancel_and_join s).
Proof.
  intros H id l. unfold cancel_and_join.
  assert (Hq : forall j, loader s = Some j -> loader_isRunning j s = false ->
               heap s !! id = Some l -> isRunning l = false).
  { intros j Hj Hnr Hl. destruct (isRunning l) eqn:Hr; [|reflexivity].
    pose proof (H id l Hl Hr) as Hid. rewrite Hj in Hid. injection Hid as ->.
    unfold loader_isRunning in Hnr. rewrite Hl in Hnr. congruence. }
  destruct (loader s) as [j|] eqn:Hj.
  - destruct (loader_isRunning j s) eqn:Hjr; [|now apply (Hq j)].
    unfold loader_wait. proj. rewrite list_lookup_alter_eq.
    unfold loader_isRunning in Hjr.
    destruct (heap s !! j) as [lj|] eqn:Elj; [|discriminate]. simpl.
    destruct (wait (stop lj)) as [l' es] eqn:Hw. proj.
    rewrite list_lookup_insert_Some.
    intros [(-> & <- & _)|[Hne Hl]].
    + replace l' with (wait (stop lj)).1 by now rewrite Hw.
      apply wait_returns.
    + rewrite list_lookup_alter_ne in Hl by exact Hne.
      destruct (isRunning l) eqn:Hr; [|reflexivity].
      pose proof (H id l Hl Hr) as Hid. rewrite Hj in Hid. congruence.
  - intros Hl. destruct (isRunning l) eqn:Hr; [|reflexivity].
    pose proof (H id l Hl Hr) as Hid. rewrite Hj in Hid. discriminate.
Qed.

Lemma quiescent_spawn from s :
  quiescent s -> only_current_runs (spawn from s).
Proof.
  intros H id l. proj. rewrite lookup_app_Some.
  intros [Hl|[Hge Hl]] Hrun.
  - rewrite (H id l Hl) in Hrun. discriminate.
  - apply lookup_lt_Some in Hl as Hlt. simpl in Hlt. f_equal. lia.
Qed.

Lemma only_current_runs_start_preload from s :
  only_current_runs s -> only_current_runs (start_preload from s).
Proof.
  intros H. apply quiescent_spawn, cancel_and_join_quiescent, H.
Qed.

Lemma only_current_runs_finish s :
  only_current_runs s -> only_current_runs (finish s).
Proof.
  intros H. apply (only_current_runs_ext (stop_current s)); try reflexivity.
  unfold stop_current. destruct (loader s); [|exact H].
  now apply only_current_runs_stop.
Qed.

Lemma only_current_runs_show_current_image s :
  only_current_runs s -> only_current_runs (show_current_image s).
Proof.
  intros H. unfold show_current_image.
  destruct (len (images s) <=? current_index s)%Z;
    [now apply only_current_runs_finish|].
  destruct (getitem (images s) (current_index s)) as [n|]; [|exact H].
  set (s1 := present n _).
  assert (H1 : only_current_runs s1).
  { apply (only_current_runs_ext s); [| |exact H]; unfold s1.
    - now rewrite heap_present.
    - now rewrite loader_present. }
  apply (only_current_runs_ext (ensure_coverage s1)); try reflexivity.
  unfold ensure_coverage.
  destruct (_ <=? _)%Z; [now apply only_current_runs_start_preload|exact H1].
Qed.

Lemma only_current_runs_label_image o s :
  only_current_runs s -> only_current_runs (label_image o s).
Proof.
  intros H. unfold label_image. destruct (_ || _)%bool; [exact H|].
  destruct (getitem _ _); [|exact H].
  apply only_current_runs_show_current_image.
  now apply (only_current_runs_ext s).
Qed.

Lemma only_current_runs_load_folder folder listing s :
  only_current_runs s -> only_current_runs (load_folder folder listing s).
Proof.
  intros H. unfold load_folder. destruct (String.eqb folder ""); [exact H|].
  destruct (recognized listing) as [|x imgs];
    [now apply (only_current_runs_ext s)|].
  apply only_current_runs_show_current_image,
    only_current_runs_start_preload.
  now apply (only_current_runs_ext s).
Qed.

Lemma only_current_runs_step e s :
  only_current_runs s -> only_current_runs (step e s).
Proof.
  intros H. destruct e as [folder listing|o| |id]; simpl.
  - now apply only_current_runs_load_folder.
  - now apply only_current_runs_label_image.
  - destruct (events s) as [|[i p] q]; [exact H|].
    apply (only_current_runs_ext s); [| |exact H]; proj.
    + now rewrite heap_show_if_waiting.
    + now rewrite loader_show_if_waiting.
  - now apply only_current_runs_thread_step.
Qed.

Lemma run_snoc tr e s : run (tr ++ [e]) s = step e (run tr s).
Proof. unfold run. now rewrite foldl_app. Qed.

Lemma only_current_runs_run tr s :
  only_current_runs s -> only_current_runs (run tr s).
Proof.
  intros H. induction tr as [|e tr IH] using rev_ind; [exact H|].
  rewrite run_snoc. now apply only_current_runs_step.
Qed.

Lemma running_loaders_spec s id :
  id ∈ running_loaders s <->
  exists l, heap s !! id = Some l /\ isRunning l = true.
Proof.
  unfold running_loaders, loader_isRunning.
  rewrite list_elem_of_In, filter_In, in_seq. split.
  - intros [_ H]. destruct (heap s !! id) as [l|]; [eauto|discriminate].
  - intros (l & Hl & Hr). rewrite Hl. split; [|exact Hr].
    apply lookup_lt_Some in Hl. lia.
Qed.

Lemma running_loaders_NoDup s : NoDup (running_loaders s).
Proof.
  unfold running_loaders. apply NoDup_ListNoDup, List.NoDup_filter, seq_NoDup.
Qed.

Lemma only_current_runs_at_most_one s :
  only_current_runs s -> length (running_loaders s) <= 1.
Proof.
  intros H. pose proof (running_loaders_NoDup s) as Hnd.
  destruct (running_loaders s) as [|a [|b r]] eqn:E; simpl; try lia.
  assert (Ha : a ∈ running_loaders s) by (rewrite E; set_solver).
  assert (Hb : b ∈ running_loaders s) by (rewrite E; set_solver).
  apply running_loaders_spec in Ha as (la & Hla & Hra).
  apply running_loaders_spec in Hb as (lb & Hlb & Hrb).
  pose proof (H a la Hla Hra) as E1. pose proof (H b lb Hlb Hrb) as E2.
  rewrite E1 in E2. injection E2 as ->.
  apply NoDup_cons in Hnd as [Hnin _]. exfalso. apply Hnin. set_solver.
Qed.

(** ** Lists and dictionaries *)

Lemma getitem_in_range {A} (l : list A) (i : Z) :
  (0 <= i < len l)%Z -> exists x, getitem l i = Some x /\ l !! Z.to_nat i = Some x.
Proof.
  intros [H0 H1]. unfold getitem, len in *.
  destruct (Z.ltb_spec i 0); [lia|].
  destruct (lookup_lt_is_Some_2 l (Z.to_nat i)) as [x Hx]; [lia|]. eauto.
Qed.

Lemma combine_keys (l : list string) : forall (os : list string) k,
  k ∈ (combine l os).*1 -> exists j, j < length os /\ l !! j = Some k.
Proof.
  induction l as [|x l IH]; intros [|o os] k; simpl; try (intros H; inversion H).
  - subst. exists 0. split; [lia|reflexivity].
  - subst. destruct (IH os k) as (j & Hj & Hl); [assumption|].
    exists (S j). split; [lia|exact Hl].
Qed.

Lemma combine_snoc (l : list string) : forall (os : list string) o x,
  l !! length os = Some x ->
  combine l (os ++ [o]) = combine l os ++ [(x, o)].
Proof.
  induction l as [|y l IH]; intros [|o' os] o x; simpl; try discriminate.
  - intros [= ->]. now destruct l.
  - intros H. f_equal. now apply IH.
Qed.

Lemma combine_full (l : list string) : forall (os : list string) o,
  length l <= length os -> combine l (os ++ [o]) = combine l os.
Proof.
  induction l as [|y l IH]; intros [|o' os] o; simpl; try reflexivity; try lia.
  intros H. f_equal. apply IH. lia.
Qed.

Lemma dict_set_fresh k v d : k ∉ d.*1 -> dict_set k v d = d ++ [(k, v)].
Proof.
  induction d as [|[k' v'] d IH]; simpl; intros H; [reflexivity|].
  destruct (String.eqb_spec k' k) as [->|Hne]; [exfalso; apply H; set_solver|].
  f_equal. apply IH. set_solver.
Qed.

Lemma dict_set_combine (l os : list string) o x :
  NoDup l -> l !! length os = Some x ->
  dict_set x o (combine l os) = combine l (os ++ [o]).
Proof.
  intros Hnd Hx. rewrite (combine_snoc l os o x Hx). apply dict_set_fresh.
  intros (j & Hj & Hl)%combine_keys.
  pose proof (NoDup_lookup l j (length os) x Hnd Hl Hx). lia.
Qed.

Lemma recognized_NoDup listing : NoDup listing -> NoDup (recognized listing).
Proof.
  intros H. apply NoDup_ListNoDup, List.NoDup_filter, NoDup_ListNoDup, H.
Qed.

Lemma len_app {A} (l : list A) x : len (l ++ [x]) = (len l + 1)%Z.
Proof. unfold len. rewrite length_app. simpl. lia. Qed.

Lemma labels_snoc tr e :
  labels (tr ++ [e]) =
  labels tr ++ match e with Label o => [o] | _ => [] end.
Proof.
  induction tr as [|e' tr IH]; simpl.
  - destruct e; reflexivity.
  - destruct e'; simpl; now rewrite IH.
Qed.

(** ** The cases of the handlers *)

Lemma label_image_noop o s :
  images s = [] \/ (len (images s) <= current_index s)%Z ->
  label_image o s = s.
Proof.
  unfold label_image. intros [->|H]; [reflexivity|].
  destruct (Z.leb_spec (len (images s)) (current_index s)); [|lia].
  now rewrite orb_true_r.
Qed.

Lemma label_image_advance o s :
  (0 <= current_index s < len (images s))%Z ->
  exists img_name,
    images s !! Z.to_nat (current_index s) = Some img_name /\
    label_image o s =
    show_current_image
      (set_current_index (current_index s + 1)
         (set_results (dict_set img_name o (results s)) s)).
Proof.
  intros H. destruct (getitem_in_range _ _ H) as (x & Hg & Hl).
  exists x. split; [exact Hl|]. unfold label_image. rewrite Hg.
  destruct (Z.leb_spec (len (images s)) (current_index s)); [lia|].
  destruct (images s); [discriminate|reflexivity].
Qed.

Lemma show_current_image_finish s :
  (len (images s) <= current_index s)%Z -> show_current_image s = finish s.
Proof.
  unfold show_current_image. intros H.
  now destruct (Z.leb_spec (len (images s)) (current_index s)); [|lia].
Qed.

Lemma show_current_image_present s :
  (0 <= current_index s < len (images s))%Z ->
  exists img_name,
    images s !! Z.to_nat (current_index s) = Some img_name /\
    show_current_image s =
    cleanup_cache
      (ensure_coverage
         (present img_name (update_progress (on_ui (w_name img_name) s)))).
Proof.
  intros H. destruct (getitem_in_range _ _ H) as (x & Hg & Hl).
  exists x. split; [exact Hl|]. unfold show_current_image. rewrite Hg.
  now destruct (Z.leb_spec (len (images s)) (current_index s)); [lia|].
Qed.

Lemma files_show_current_image s :
  files (show_current_image s) =
  if (len (images s) <=? current_index s)%Z
  then (output_path, json_dump (results s)) :: files s
  else files s.
Proof.
  unfold show_current_image.
  destruct (len (images s) <=? current_index s)%Z.
  - proj. unfold stop_current. now destruct (loader s).
  - frame.
Qed.

Lemma images_step e s : session_event e = true -> images (step e s) = images s.
Proof. destruct e; try discriminate; intros _; simpl; frame. Qed.

Lemma folder_step e s :
  session_event e = true -> image_folder (step e s) = image_folder s.
Proof. destruct e; try discriminate; intros _; simpl; frame. Qed.

Lemma current_index_background e s :
  e = ImageReady \/ (exists id, e = LoaderStep id) ->
  current_index (step e s) = current_index s
  /\ results (step e s) = results s
  /\ files (step e s) = files s.
Proof. intros [->|[id ->]]; simpl; repeat split; frame. Qed.

(** ** States and traces *)

Lemma eqb_chosen folder : folder <> "" -> String.eqb folder "" = false.
Proof. intros H. now destruct (String.eqb_spec folder ""). Qed.

Lemma count_empty i : count_at_or_after ∅ i = 0%Z.
Proof. unfold count_at_or_after, keys. now rewrite map_to_list_empty. Qed.

Lemma State_ext (s s' : State) :
  images s = images s' -> current_index s = current_index s' ->
  results s = results s' -> image_folder s = image_folder s' ->
  cache s = cache s' -> loaded_up_to s = loaded_up_to s' ->
  loader s = loader s' -> ui s = ui s' -> heap s = heap s' ->
  events s = events s' -> files s = files s' -> s = s'.
Proof. destruct s, s'; simpl; intros; subst; reflexivity. Qed.

Lemma Widgets_ext (w w' : Widgets) :
  image_label w = image_label w' -> name_label w = name_label w' ->
  progress_label w = progress_label w' -> status_label w = status_label w' ->
  portrait_btn w = portrait_btn w' -> landscape_btn w = landscape_btn w' ->
  w = w'.
Proof. destruct w, w'; simpl; intros; subst; reflexivity. Qed.

Lemma session_start_nonempty folder listing x r :
  folder <> "" -> recognized listing = x :: r ->
  session_start folder listing =
  {| images := x :: r; current_index := 0; results := [];
     image_folder := folder; cache := ∅; loaded_up_to := 20;
     loader := Some 0;
     ui := {| image_label := Some (scaled (QPixmap folder x));
              name_label := x;
              progress_label := progress_text 1 (len (x :: r)) 0;
              status_label := "Press P for Portrait, L for Landscape";
              portrait_btn := true; landscape_btn := true |};
     heap := [ {| ld_images := x :: r; ld_folder := folder; start_index := 0;
                  running := true; thread := AtLoop 0 |} ];
     events := []; files := [] |}.
Proof.
  intros Hf Hr. unfold session_start, load_folder.
  rewrite (eqb_chosen folder Hf), Hr.
  assert (Hlen : (len (x :: r) <=? 0)%Z = false).
  { unfold len. simpl length. apply Z.leb_gt. lia. }
  match goal with |- context [start_preload 0 ?s1] =>
    change (start_preload 0 s1) with (spawn 0 s1) end.
  unfold show_current_image, init. proj. rewrite Hlen.
  change (getitem (x :: r) 0) with (Some x). cbn iota.
  unfold ensure_coverage, present. proj.
  rewrite lookup_empty. proj.
  change (0 + PREFETCH_COUNT - PREFETCH_COUNT / 2 <=? 0)%Z with false.
  cbn iota.
  apply State_ext; proj; reflexivity.
Qed.

Lemma session_trace_snoc tr e :
  session_trace (tr ++ [e]) -> session_trace tr /\ session_event e = true.
Proof.
  unfold session_trace. rewrite Forall_app, Forall_singleton. tauto.
Qed.


(** ** The cache: eviction and counting *)

Lemma elem_of_keys (m : gmap Z (Pixmap Asset)) k :
  k ∈ keys m <-> is_Some (m !! k).
Proof.
  unfold keys. rewrite list_elem_of_fmap. split.
  - intros ([k' p] & -> & H%elem_of_map_to_list). eauto.
  - intros [p H]. exists (k, p). split; [reflexivity|].
    now apply elem_of_map_to_list.
Qed.

Lemma keys_NoDup (m : gmap Z (Pixmap Asset)) : NoDup (keys m).
Proof. apply NoDup_fst_map_to_list. Qed.

Lemma elem_of_filter_bool {A} (f : A -> bool) (l : list A) x :
  x ∈ List.filter f l <-> x ∈ l /\ f x = true.
Proof. rewrite !list_elem_of_In. apply filter_In. Qed.

Lemma lookup_foldl_delete (ks : list Z) : forall (m : gmap Z (Pixmap Asset)) k,
  foldl (fun m k => delete k m) m ks !! k =
  if decide (k ∈ ks) then None else m !! k.
Proof.
  induction ks as [|a ks IH]; intros m k; simpl.
  - destruct (decide (k ∈ [])) as [H|_]; [inversion H|reflexivity].
  - rewrite IH. destruct (decide (k ∈ ks)) as [Hin|Hnin].
    + destruct (decide (k ∈ a :: ks)) as [_|H]; [reflexivity|].
      exfalso. apply H. set_solver.
    + destruct (decide (k = a)) as [->|Hne].
      * rewrite lookup_delete_eq.
        destruct (decide (a ∈ a :: ks)) as [_|H]; [reflexivity|].
        exfalso. apply H. set_solver.
      * rewrite lookup_delete_ne by congruence.
        destruct (decide (k ∈ a :: ks)) as [H|_]; [|reflexivity].
        exfalso. set_solver.
Qed.

(** [cleanup_cache] deletes the keys below [current_index - 5], and only
    those. *)
Lemma cleanup_cache_lookup s k :
  cache (cleanup_cache s) !! k =
  if (k <? current_index s - 5)%Z then None else cache s !! k.
Proof.
  proj. rewrite lookup_foldl_delete.
  destruct (decide (k ∈ _)) as [Hin|Hnin].
  - apply elem_of_filter_bool in Hin as [_ ->]. reflexivity.
  - destruct (k <? current_index s - 5)%Z eqn:E; [|reflexivity].
    destruct (cache s !! k) as [p|] eqn:Hk; [|reflexivity].
    exfalso. apply Hnin, elem_of_filter_bool. split; [|exact E].
    apply elem_of_keys. eauto.
Qed.



(** ** The supervisor *)

Lemma half_window : (PREFETCH_COUNT / 2 = 10)%Z.
Proof. reflexivity. Qed.

Lemma images_cancel_and_join s : images (cancel_and_join s) = images s.
Proof. frame. Qed.

Lemma folder_cancel_and_join s :
  image_folder (cancel_and_join s) = image_folder s.
Proof. frame. Qed.

Lemma current_loader_start_preload from s :
  current_loader (start_preload from s) =
  Some {| ld_images := images s; ld_folder := image_folder s;
          start_index := from; running := true; thread := AtLoop from |}.
Proof.
  unfold current_loader. proj.
  rewrite lookup_app_r by lia. rewrite Nat.sub_diag. simpl.
  now rewrite images_cancel_and_join, folder_cancel_and_join.
Qed.

Lemma current_loader_ext s s' :
  heap s' = heap s -> loader s' = loader s ->
  current_loader s' = current_loader s.
Proof. unfold current_loader. now intros -> ->. Qed.

Lemma current_loader_finish s :
  current_loader (finish s) = stop <$> current_loader s.
Proof.
  unfold current_loader. proj. unfold stop_current.
  destruct (loader s) as [id|] eqn:E; proj; rewrite E; [|reflexivity].
  apply list_lookup_alter_eq.
Qed.

Lemma current_loader_thread_step id s l :
  current_loader s = Some l ->
  exists l', current_loader (thread_step id s) = Some l'
    /\ start_index l' = start_index l /\ running l' = running l
    /\ ld_images l' = ld_images l /\ ld_folder l' = ld_folder l.
Proof.
  unfold current_loader, thread_step. intros H.
  destruct (loader s) as [j|] eqn:Ej; [|discriminate].
  destruct (heap s !! id) as [li|] eqn:Ei.
  - destruct (worker_step li) as [l1 es] eqn:Hw. proj. rewrite Ej.
    destruct (decide (id = j)) as [->|Hne].
    + rewrite list_lookup_insert_eq by (now apply lookup_lt_Some in Ei).
      exists l1. split; [reflexivity|].
      assert (li = l) by congruence. subst li.
      replace l1 with (worker_step l).1 by now rewrite Hw.
      rewrite worker_step_start, worker_step_running, worker_step_images,
        worker_step_folder. auto.
    + rewrite list_lookup_insert_ne by exact Hne. exists l. auto.
  - rewrite Ej. exists l. auto.
Qed.

(** What presenting an item does to the supervisor's state: the restart
    policy of [show_current_image]. *)
Lemma show_current_image_policy s :
  (0 <= current_index s < len (images s))%Z ->
  let restart := (loaded_up_to s - 10 <=? current_index s)%Z in
  loaded_up_to (show_current_image s) =
    (if restart then loaded_up_to s + PREFETCH_COUNT else loaded_up_to s)%Z
  /\ current_loader (show_current_image s) =
    (if restart
     then Some {| ld_images := images s; ld_folder := image_folder s;
                  start_index := loaded_up_to s; running := true;
                  thread := AtLoop (loaded_up_to s) |}
     else current_loader s).
Proof.
  intros H. destruct (show_current_image_present s H) as (x & _ & ->).
  set (s1 := present x _).
  assert (E1 : loaded_up_to s1 = loaded_up_to s) by (unfold s1; frame).
  assert (E2 : current_index s1 = current_index s) by (unfold s1; frame).
  assert (E3 : images s1 = images s) by (unfold s1; frame).
  assert (E4 : image_folder s1 = image_folder s) by (unfold s1; frame).
  assert (E5 : current_loader s1 = current_loader s).
  { apply current_loader_ext; unfold s1; frame. }
  cbv zeta. unfold ensure_coverage. rewrite E1, E2, half_window.
  destruct (loaded_up_to s - 10 <=? current_index s)%Z.
  - split; [reflexivity|].
    rewrite <- E3, <- E4, <- (current_loader_start_preload (loaded_up_to s) s1).
    now apply current_loader_ext.
  - split; [proj; exact E1|]. rewrite <- E5. now apply current_loader_ext.
Qed.

Lemma supervisor_background e s :
  e = ImageReady \/ (exists id, e = LoaderStep id) ->
  loaded_up_to (step e s) = loaded_up_to s
  /\ loader (step e s) = loader s
  /\ cache (step e s) = match e, events s with
                        | ImageReady, (i, p) :: _ => <[i := p]> (cache s)
                        | _, _ => cache s
                        end.
Proof.
  intros [->|[id ->]]; simpl.
  - destruct (events s) as [|[i p] q]; repeat split; frame.
  - repeat split; frame.
Qed.

Lemma current_loader_ImageReady s :
  current_loader (step ImageReady s) = current_loader s.
Proof.
  simpl. destruct (events s) as [|[i p] q]; [reflexivity|].
  apply current_loader_ext; frame.
Qed.


(** ** Where cached pixmaps come from *)

Lemma worker_step_emits l k pm :
  (k, pm) ∈ (worker_step l).2 ->
  decoded_from (ld_images l) (ld_folder l) k pm.
Proof.
  unfold worker_step.
  destruct (thread l) as [i|i|]; simpl; try (intros H; now inversion H).
  - destruct (_ <? _)%Z; [destruct (running l)|]; simpl;
      intros H; inversion H.
  - destruct (getitem (ld_images l) i) as [name|] eqn:Hg; simpl;
      [|intros H; inversion H].
    destruct (QPixmap (ld_folder l) name) as [|a] eqn:Hq; simpl;
      intros H; [inversion H|].
    apply list_elem_of_singleton in H. injection H as -> ->.
    exists name, a. auto.
Qed.

Lemma run_thread_emits fuel : forall l k pm,
  (k, pm) ∈ (run_thread fuel l).2 ->
  decoded_from (ld_images l) (ld_folder l) k pm.
Proof.
  induction fuel as [|n IH]; intros l k pm; simpl; [intros H; inversion H|].
  destruct (worker_step l) as [l1 e1] eqn:Hw.
  specialize (IH l1 k pm). destruct (run_thread n l1) as [l2 e2]. simpl in *.
  rewrite elem_of_app. intros [H|H].
  - apply worker_step_emits. now rewrite Hw.
  - replace l1 with (worker_step l).1 in IH by now rewrite Hw.
    rewrite worker_step_images, worker_step_folder in IH. auto.
Qed.


(** ** What is shown *)

Lemma ui_ensure_coverage s : ui (ensure_coverage s) = ui s.
Proof. frame. Qed.

Lemma cache_ensure_coverage s : cache (ensure_coverage s) = cache s.
Proof. frame. Qed.

Lemma current_index_ensure_coverage s :
  current_index (ensure_coverage s) = current_index s.
Proof. frame. Qed.

Lemma cache_present n s : cache (present n s) = cache s.
Proof. frame. Qed.

Lemma current_index_present n s :
  current_index (present n s) = current_index s.
Proof. frame. Qed.


(** The pixmap [show_current_image] puts on the label: the cached one, or
    else the one decoded on the spot. *)
Lemma image_label_show_current_image s name :
  (0 <= current_index s < len (images s))%Z ->
  images s !! Z.to_nat (current_index s) = Some name ->
  image_label (ui (show_current_image s)) =
  Some (match cache s !! current_index s with
        | Some pixmap => pixmap
        | None => scaled (QPixmap (image_folder s) name)
        end).
Proof.
  intros H Hn. destruct (show_current_image_present s H) as (x & Hx & ->).
  assert (x = name) by congruence. subst x.
  change (ui (cleanup_cache ?X)) with (ui X). rewrite ui_ensure_coverage.
  unfold present. proj. now destruct (cache s !! current_index s).
Qed.


Lemma cache_on_image_loaded i p s :
  cache (on_image_loaded i p s) = <[i := p]> (cache s).
Proof. frame. Qed.


(** A delivered signal never reaches the image label. *)
Lemma show_if_waiting_same i p s : show_if_waiting i p s = s.
Proof.
  unfold show_if_waiting, pixmap_is_None. now rewrite andb_false_r.
Qed.

Lemma image_label_ImageReady s :
  image_label (ui (step ImageReady s)) = image_label (ui s).
Proof.
  simpl. destruct (events s) as [|[i p] q]; [reflexivity|].
  proj. now rewrite show_if_waiting_same.
Qed.

Lemma ui_thread_step id s : ui (thread_step id s) = ui s.
Proof. frame. Qed.

(** ** An empty folder *)

Lemma load_folder_empty folder listing s :
  folder <> "" -> recognized listing = [] ->
  load_folder folder listing s =
  on_ui (w_name "No images found in folder")
    (set_loaded_up_to 0
       (set_cache ∅ (set_images [] (set_image_folder folder s)))).
Proof.
  intros Hf Hr. unfold load_folder. now rewrite (eqb_chosen folder Hf), Hr.
Qed.

Lemma idle_step e s :
  session_event e = true ->
  images s = [] -> heap s = [] -> events s = [] -> step e s = s.
Proof.
  destruct e as [f l|o| |id]; [discriminate| | |]; intros _ Hi Hh He; simpl.
  - apply label_image_noop. auto.
  - now rewrite He.
  - unfold thread_step. now rewrite Hh.
Qed.

Lemma idle_run tr s :
  session_trace tr ->
  images s = [] -> heap s = [] -> events s = [] -> run tr s = s.
Proof.
  intros Htr Hi Hh He. induction tr as [|e tr IH] using rev_ind; [reflexivity|].
  apply session_trace_snoc in Htr as [Htr Hev].
  rewrite run_snoc, (IH Htr). now apply idle_step.
Qed.

Lemma name_label_background e s :
  e = ImageReady \/ (exists id, e = LoaderStep id) ->
  name_label (ui (step e s)) = name_label (ui s).
Proof. intros [->|[id ->]]; simpl; frame. Qed.

Lemma getitem_nonneg {A} (l : list A) i :
  (0 <= i)%Z -> getitem l i = l !! Z.to_nat i.
Proof. intros H. unfold getitem. now destruct (Z.ltb_spec i 0); [lia|]. Qed.

(** A loader whose flag is cleared returns within two steps of its thread,
    after at most one more signal. *)
Lemma stopped_returns l :
  running l = false ->
  let '(l1, e1) := worker_step l in
  let '(l2, e2) := worker_step l1 in
  isRunning l2 = false /\ length (e1 ++ e2) <= 1.
Proof.
  intros Hr.
  assert (Hbreak : forall i l', thread l' = AtLoop i -> running l' = false ->
            worker_step l' = (set_thread Finished l', [])).
  { intros i l' Ht Hr'. unfold worker_step. rewrite Ht, Hr'.
    now destruct (i <? range_stop l')%Z. }
  destruct (thread l) as [i|i|] eqn:Ht.
  - rewrite (Hbreak i l Ht Hr). unfold worker_step. simpl. auto.
  - unfold worker_step at 1. rewrite Ht.
    destruct (getitem (ld_images l) i) as [n|].
    + destruct (isNull _); rewrite (Hbreak (i + 1)%Z) by (simpl; auto);
        simpl; auto.
    + unfold worker_step. simpl. auto.
  - unfold worker_step, isRunning. rewrite Ht. simpl. rewrite !Ht. auto.
Qed.

(** ** Nothing stale *)

Lemma worker_step_in_range l :
  thread_in_range l -> thread_in_range (worker_step l).1.
Proof.
  unfold thread_in_range, worker_step.
  destruct (thread l) as [i|i|] eqn:Ht; intros H.
  - destruct (Z.ltb_spec i (range_stop l)); [destruct (running l)|]; simpl;
      try exact I. unfold range_stop in *. simpl. lia.
  - destruct (getitem (ld_images l) i); [|exact I].
    destruct (isNull _); simpl; lia.
  - simpl. now rewrite Ht.
Qed.

Lemma worker_step_emits_key l k p :
  thread_in_range l -> (k, p) ∈ (worker_step l).2 ->
  (start_index l <= k < range_stop l)%Z.
Proof.
  unfold thread_in_range, worker_step.
  destruct (thread l) as [i|i|]; intros H Hin.
  - destruct (_ <? _)%Z; [destruct (running l)|]; inversion Hin.
  - destruct (getitem (ld_images l) i); [|inversion Hin].
    destruct (isNull _); simpl in Hin; [inversion Hin|].
    apply list_elem_of_singleton in Hin. injection Hin as -> _. exact H.
  - inversion Hin.
Qed.

Lemma run_thread_in_range fuel : forall l,
  thread_in_range l ->
  thread_in_range (run_thread fuel l).1
  /\ forall k p, (k, p) ∈ (run_thread fuel l).2 ->
       (start_index l <= k < range_stop l)%Z.
Proof.
  induction fuel as [|n IH]; intros l H; simpl.
  - split; [exact H|]. intros k p Hin. inversion Hin.
  - pose proof (worker_step_in_range l H) as H1.
    pose proof (worker_step_emits_key l) as H2.
    destruct (worker_step l) as [l1 e1] eqn:Hw. simpl in H1, H2.
    destruct (IH l1 H1) as [IH1 IH2].
    destruct (run_thread n l1) as [l2 e2]. simpl in *.
    split; [exact IH1|]. intros k p. rewrite elem_of_app. intros [Hin|Hin].
    + now apply (H2 k p).
    + replace l1 with (worker_step l).1 in IH2 by now rewrite Hw.
      rewrite worker_step_start, worker_step_range_stop in IH2.
      now apply (IH2 k p).
Qed.

Lemma run_thread_returned fuel : forall l,
  isRunning l = false -> run_thread fuel l = (l, []).
Proof.
  induction fuel as [|n IH]; intros l H; simpl; [reflexivity|].
  now rewrite (worker_step_returned l H), (IH l H).
Qed.

Lemma loaded_up_to_cancel_and_join s :
  loaded_up_to (cancel_and_join s) = loaded_up_to s.
Proof. frame. Qed.

Lemma decoded_from_bound imgs folder k pm :
  (0 <= k)%Z -> decoded_from imgs folder k pm -> (k < len imgs)%Z.
Proof.
  intros Hk (n & a & Hg & _). rewrite getitem_nonneg in Hg by exact Hk.
  apply lookup_lt_Some in Hg. unfold len. lia.
Qed.

Lemma decoded_from_scaled imgs folder k name pm :
  (0 <= k)%Z -> imgs !! Z.to_nat k = Some name ->
  decoded_from imgs folder k pm -> pm = scaled (QPixmap folder name).
Proof.
  intros Hk Hn (n & a & Hg & Hq & ->).
  rewrite getitem_nonneg in Hg by exact Hk.
  assert (n = name) by congruence. subst n. now rewrite Hq.
Qed.

Lemma no_stale_ext s s' :
  heap s' = heap s -> loaded_up_to s' = loaded_up_to s ->
  images s' = images s -> image_folder s' = image_folder s ->
  events s' = events s -> cache s' = cache s -> no_stale s -> no_stale s'.
Proof. unfold no_stale. now intros -> -> -> -> -> ->. Qed.

(** A loader takes steps: what it emits is decoded from its own images,
    inside its own range. *)
Lemma no_stale_update s id l l' es :
  no_stale s -> heap s !! id = Some l ->
  (isRunning l' = true -> isRunning l = true) ->
  ld_images l' = ld_images l -> ld_folder l' = ld_folder l ->
  start_index l' = start_index l ->
  (thread_in_range l -> thread_in_range l') ->
  (forall k p, (k, p) ∈ es ->
     isRunning l = true
     /\ decoded_from (ld_images l) (ld_folder l) k p
     /\ (thread_in_range l -> (start_index l <= k < range_stop l)%Z)) ->
  no_stale (set_events (events s ++ es) (set_heap (<[id := l']> (heap s)) s)).
Proof.
  intros (H0 & Hh & He & Hc) Hl Hrun Hi Hf Hs Hr Hes.
  split; [exact H0|]. split; [|split; [|exact Hc]]; proj.
  - intros id' l''. rewrite list_lookup_insert_Some.
    intros [(-> & <- & _)|[_ H]] Hr'; [|exact (Hh _ _ H Hr')].
    destruct (Hh id' l Hl (Hrun Hr')) as (E1 & E2 & E3 & E4 & E5).
    rewrite Hi, Hf, Hs. auto 10.
  - intros k p. rewrite elem_of_app. intros [H|H]; [now apply He|].
    destruct (Hes k p H) as (Hr' & Hd & Hk).
    destruct (Hh id l Hl Hr') as (E1 & E2 & E3 & E4 & E5).
    rewrite <- E1, <- E2. split; [exact Hd|].
    specialize (Hk E5). unfold range_stop in Hk. lia.
Qed.

Lemma no_stale_thread_step id s : no_stale s -> no_stale (thread_step id s).
Proof.
  intros H. unfold thread_step.
  destruct (heap s !! id) as [l|] eqn:E; [|exact H].
  pose proof (worker_step_images l) as H1.
  pose proof (worker_step_folder l) as H2.
  pose proof (worker_step_start l) as H3.
  pose proof (worker_step_in_range l) as H4.
  pose proof (worker_step_emits l) as H5.
  pose proof (worker_step_emits_key l) as H6.
  pose proof (worker_step_returned l) as H7.
  destruct (worker_step l) as [l' es]. simpl in *.
  apply (no_stale_update s id l l' es H E); try assumption.
  - intros Hr. destruct (isRunning l) eqn:Hl; [reflexivity|].
    specialize (H7 eq_refl). injection H7 as -> _. congruence.
  - intros k p Hin. split; [|split].
    + destruct (isRunning l) eqn:Hl; [reflexivity|].
      specialize (H7 eq_refl). injection H7 as _ ->. inversion Hin.
    + now apply H5.
    + intros Hr. now apply (H6 k p).
Qed.

Lemma no_stale_wait id s : no_stale s -> no_stale (loader_wait id s).
Proof.
  intros H. unfold loader_wait.
  destruct (heap s !! id) as [l|] eqn:E; [|exact H].
  destruct (run_thread_images (steps_left l) l) as (H1 & H2 & H3).
  pose proof (run_thread_in_range (steps_left l) l) as H4.
  pose proof (run_thread_emits (steps_left l) l) as H5.
  pose proof (run_thread_returned (steps_left l) l) as H7.
  pose proof (wait_returns l) as H8. unfold wait in *.
  destruct (run_thread (steps_left l) l) as [l' es]. simpl in *.
  apply (no_stale_update s id l l' es H E); try assumption.
  - intros Hr. congruence.
  - intros Hr. now apply H4.
  - intros k p Hin. split; [|split].
    + destruct (isRunning l) eqn:Hl; [reflexivity|].
      specialize (H7 eq_refl). injection H7 as _ ->. inversion Hin.
    + now apply H5.
    + intros Hr. now apply (proj2 (H4 Hr) k p).
Qed.

Lemma no_stale_stop id s : no_stale s -> no_stale (loader_stop id s).
Proof.
  intros (H0 & Hh & He & Hc).
  split; [exact H0|]. split; [|split; assumption].
  intros id' l'. proj. rewrite list_lookup_alter.
  destruct (decide (id = id')) as [->|_]; [|apply Hh].
  destruct (heap s !! id') as [l|] eqn:E; simpl; [|discriminate].
  intros [= <-]. exact (Hh id' l E).
Qed.

Lemma no_stale_cancel_and_join s : no_stale s -> no_stale (cancel_and_join s).
Proof.
  intros H. unfold cancel_and_join. destruct (loader s) as [id|]; [|exact H].
  destruct (loader_isRunning id s); [|exact H].
  now apply no_stale_wait, no_stale_stop.
Qed.

Lemma no_stale_spawn from s :
  (0 <= from)%Z -> (loaded_up_to s <= from + PREFETCH_COUNT)%Z ->
  no_stale s -> no_stale (spawn from s).
Proof.
  intros Hfrom Hle (H0 & Hh & He & Hc).
  split; [|split; [|split]]; proj.
  - unfold PREFETCH_COUNT. lia.
  - intros id l. rewrite lookup_app_Some. intros [H|[_ H]] Hr.
    + destruct (Hh id l H Hr) as (E1 & E2 & E3 & E4 & E5).
      repeat (split; [assumption|]). split; [lia|exact E5].
    + destruct (id - length (heap s)); simpl in H; [|discriminate].
      injection H as <-. unfold thread_in_range. simpl.
      repeat (split; [reflexivity|]). split; [exact Hfrom|]. split; lia.
  - intros k pm H. destruct (He k pm H). split; [assumption|lia].
  - intros k pm H. destruct (Hc k pm H). split; [assumption|lia].
Qed.

Lemma no_stale_start_preload from s :
  (0 <= from)%Z -> (loaded_up_to s <= from + PREFETCH_COUNT)%Z ->
  no_stale s -> no_stale (start_preload from s).
Proof.
  intros Hfrom Hle H. apply no_stale_spawn; [exact Hfrom| |].
  - now rewrite loaded_up_to_cancel_and_join.
  - now apply no_stale_cancel_and_join.
Qed.

Lemma no_stale_ensure_coverage s : no_stale s -> no_stale (ensure_coverage s).
Proof.
  intros H. unfold ensure_coverage. destruct (_ <=? _)%Z; [|exact H].
  apply no_stale_start_preload; [apply H| |exact H].
  unfold PREFETCH_COUNT. lia.
Qed.

Lemma no_stale_cleanup_cache s : no_stale s -> no_stale (cleanup_cache s).
Proof.
  intros (H0 & Hh & He & Hc).
  split; [exact H0|]. split; [exact Hh|]. split; [exact He|].
  intros k pm. rewrite cleanup_cache_lookup.
  destruct (k <? current_index s - 5)%Z; [discriminate|apply Hc].
Qed.

Lemma no_stale_finish s : no_stale s -> no_stale (finish s).
Proof.
  intros H. apply (no_stale_ext (stop_current s)); try reflexivity.
  unfold stop_current. destruct (loader s); [|exact H].
  now apply no_stale_stop.
Qed.

Lemma no_stale_show_current_image s :
  no_stale s -> no_stale (show_current_image s).
Proof.
  intros H. unfold show_current_image.
  destruct (len (images s) <=? current_index s)%Z;
    [now apply no_stale_finish|].
  destruct (getitem (images s) (current_index s)) as [n|]; [|exact H].
  apply no_stale_cleanup_cache, no_stale_ensure_coverage.
  apply (no_stale_ext s); [..|exact H]; frame.
Qed.

Lemma no_stale_label_image o s : no_stale s -> no_stale (label_image o s).
Proof.
  intros H. unfold label_image. destruct (_ || _)%bool; [exact H|].
  destruct (getitem _ _); [|exact H].
  apply no_stale_show_current_image. now apply (no_stale_ext s).
Qed.

Lemma no_stale_ImageReady s : no_stale s -> no_stale (step ImageReady s).
Proof.
  intros H. simpl.
  destruct (events s) as [|[i p] q] eqn:E; [exact H|].
  destruct H as (H0 & Hh & He & Hc).
  assert (E1 : heap (on_image_loaded i p (set_events q s)) = heap s) by frame.
  assert (E2 : events (on_image_loaded i p (set_events q s)) = q) by frame.
  assert (E3 : loaded_up_to (on_image_loaded i p (set_events q s))
               = loaded_up_to s) by frame.
  assert (E4 : images (on_image_loaded i p (set_events q s)) = images s)
    by frame.
  assert (E5 : image_folder (on_image_loaded i p (set_events q s))
               = image_folder s) by frame.
  unfold no_stale. rewrite E1, E2, E3, E4, E5, cache_on_image_loaded. proj.
  split; [exact H0|]. split; [exact Hh|]. split.
  - intros k pm Hin. apply He. rewrite E. now apply list_elem_of_further.
  - intros k pm. rewrite lookup_insert_Some.
    intros [[<- <-]|[_ H]]; [|now apply Hc].
    apply He. rewrite E. apply list_elem_of_here.
Qed.

Lemma no_stale_step e s :
  session_event e = true -> no_stale s -> no_stale (step e s).
Proof.
  destruct e as [f l|o| |id]; [discriminate| | |]; intros _ H.
  - now apply no_stale_label_image.
  - now apply no_stale_ImageReady.
  - now apply no_stale_thread_step.
Qed.

Lemma running_loaders_quiescent s : running_loaders s = [] -> quiescent s.
Proof.
  intros H id l Hl. destruct (isRunning l) eqn:Hr; [|reflexivity].
  assert (Hin : id ∈ running_loaders s)
    by (apply running_loaders_spec; eauto).
  rewrite H in Hin. inversion Hin.
Qed.

(** A folder loaded into a window at rest leaves nothing stale. *)
Lemma no_stale_load_folder w folder listing :
  folder <> "" -> events w = [] -> quiescent w ->
  no_stale (load_folder folder listing w).
Proof.
  intros Hf He Hq. unfold load_folder. rewrite (eqb_chosen folder Hf).
  assert (Hbase : forall s1,
            heap s1 = heap w -> events s1 = [] -> cache s1 = ∅ ->
            loaded_up_to s1 = 0%Z -> no_stale s1).
  { intros s1 E1 E2 E3 E4. unfold no_stale. rewrite E1, E2, E3, E4.
    split; [lia|]. split; [|split].
    - intros id l Hl Hr. rewrite (Hq id l Hl) in Hr. discriminate.
    - intros k pm H. inversion H.
    - intros k pm. now rewrite lookup_empty. }
  destruct (recognized listing) as [|x r].
  - apply Hbase; [reflexivity|exact He|reflexivity|reflexivity].
  - apply no_stale_show_current_image, no_stale_start_preload;
      [lia|proj; unfold PREFETCH_COUNT; lia|].
    apply Hbase; [reflexivity|exact He|reflexivity|reflexivity].
Qed.

(** ** One session

    A folder with images is loaded into a window [w], in whatever state it
    is, and no other folder is loaded afterwards. *)

Lemma name_label_present n s : name_label (ui (present n s)) = name_label (ui s).
Proof. frame. Qed.

Lemma name_label_show_current_image s name :
  (0 <= current_index s < len (images s))%Z ->
  images s !! Z.to_nat (current_index s) = Some name ->
  name_label (ui (show_current_image s)) = name.
Proof.
  intros H Hn. destruct (show_current_image_present s H) as (x & Hx & ->).
  assert (x = name) by congruence. subst x.
  change (ui (cleanup_cache ?X)) with (ui X).
  now rewrite ui_ensure_coverage, name_label_present.
Qed.

(** What [load_folder] leaves behind when the folder has images: all starts
    over, but for the files written. *)
Lemma load_folder_restart w folder listing :
  folder <> "" -> recognized listing <> [] ->
  let s' := load_folder folder listing w in
  images s' = recognized listing /\ image_folder s' = folder
  /\ current_index s' = 0%Z /\ results s' = []
  /\ cache s' = ∅ /\ loaded_up_to s' = 20%Z
  /\ files s' = files w
  /\ current_loader s' =
     Some {| ld_images := recognized listing; ld_folder := folder;
             start_index := 0; running := true; thread := AtLoop 0 |}
  /\ (forall x, recognized listing !! 0 = Some x ->
        image_label (ui s') = Some (scaled (QPixmap folder x))
        /\ name_label (ui s') = x).
Proof.
  intros Hf Hsome. cbv zeta. unfold load_folder.
  rewrite (eqb_chosen folder Hf).
  destruct (recognized listing) as [|x r] eqn:E; [contradiction|].
  set (s1 := on_ui (w_buttons true) _).
  set (S1 := start_preload 0 s1).
  assert (A1 : images S1 = x :: r) by (unfold S1; frame).
  assert (A2 : current_index S1 = 0%Z) by (unfold S1; frame).
  assert (A3 : loaded_up_to S1 = 20%Z) by reflexivity.
  assert (A4 : cache S1 = ∅) by (unfold S1; frame).
  assert (A5 : image_folder S1 = folder) by (unfold S1; frame).
  assert (H : (0 <= current_index S1 < len (images S1))%Z).
  { rewrite A1, A2. unfold len. simpl. lia. }
  assert (Hx : images S1 !! Z.to_nat (current_index S1) = Some x)
    by now rewrite A1, A2.
  destruct (show_current_image_policy S1 H) as [B1 B2].
  rewrite A3, A2 in B1, B2. change (20 - 10 <=? 0)%Z with false in B1, B2.
  assert (B3 : cache (show_current_image S1) = ∅).
  { apply map_eq. intros k. rewrite lookup_empty.
    destruct (show_current_image_present S1 H) as (n & _ & ->).
    rewrite cleanup_cache_lookup.
    destruct (_ <? _)%Z; [reflexivity|].
    now rewrite cache_ensure_coverage, cache_present; proj; rewrite A4. }
  rewrite images_show_current_image, current_index_show_current_image,
    results_show_current_image, files_show_current_image, A1, A2, B1, B2, B3.
  assert (C1 : image_folder (show_current_image S1) = folder)
    by (rewrite <- A5; frame).
  assert (C2 : (len (x :: r) <=? 0)%Z = false)
    by (apply Z.leb_gt; unfold len; simpl; lia).
  rewrite C1, C2.
  split; [reflexivity|]. split; [reflexivity|]. split; [reflexivity|].
  split; [unfold S1; frame|]. split; [reflexivity|]. split; [reflexivity|].
  split; [unfold S1; frame|].
  split.
  { unfold S1. rewrite current_loader_start_preload. reflexivity. }
  intros x' [= <-].
  rewrite (image_label_show_current_image S1 x H Hx),
    (name_label_show_current_image S1 x H Hx), A2, A4, A5, lookup_empty.
  split; reflexivity.
Qed.

Section Loaded.

Variable w : State.
Variable folder : string.
Variable listing : list string.
Hypothesis folder_chosen : folder <> "".
Hypothesis some_image : recognized listing <> [].

Local Abbreviation imgs := (recognized listing).
Local Abbreviation s0 := (load_folder folder listing w).

Lemma loaded_images tr :
  session_trace tr ->
  images (run tr s0) = imgs /\ image_folder (run tr s0) = folder.
Proof.
  induction tr as [|e tr IH] using rev_ind; intros Htr.
  - destruct (load_folder_restart w folder listing folder_chosen some_image)
      as (A1 & A2 & _). now split.
  - apply session_trace_snoc in Htr as [Htr He]. rewrite run_snoc.
    rewrite images_step, folder_step by exact He. now apply IH.
Qed.

Lemma loaded_cursor tr :
  NoDup listing -> session_trace tr ->
  current_index (run tr s0) = Z.min (len (labels tr)) (len imgs)
  /\ results (run tr s0) = combine imgs (labels tr)
  /\ files (run tr s0) =
     if (len imgs <=? len (labels tr))%Z
     then (output_path, json_dump (combine imgs (labels tr))) :: files w
     else files w.
Proof.
  intros Hnd. induction tr as [|e tr IH] using rev_ind; intros Htr.
  - destruct (load_folder_restart w folder listing folder_chosen some_image)
      as (_ & _ & A3 & A4 & _ & _ & A7 & _).
    cbn [run foldl labels]. rewrite A3, A4, A7.
    destruct imgs as [|x r]; [contradiction|].
    unfold len. simpl length. repeat split.
  - apply session_trace_snoc in Htr as [Htr He]. rewrite run_snoc.
    destruct (loaded_images tr Htr) as [Himg _].
    destruct (IH Htr) as (Hc & Hr & Hf). clear IH.
    rewrite labels_snoc.
    destruct e as [f l|o| |id]; [discriminate| | |].
    + simpl step. set (s := run tr s0) in *. set (os := labels tr) in *.
      rewrite len_app.
      destruct (Z.lt_ge_cases (len os) (len imgs)) as [Hlt|Hge].
      * assert (Hcur : current_index s = len os) by lia.
        destruct (label_image_advance o s) as (x & Hx & ->).
        { rewrite Himg, Hcur. unfold len in *. lia. }
        rewrite Himg, Hcur in Hx. unfold len in Hx. rewrite Nat2Z.id in Hx.
        rewrite current_index_show_current_image,
          results_show_current_image, files_show_current_image.
        proj. rewrite Himg, Hr, Hcur, Hf.
        rewrite (dict_set_combine imgs os o x (recognized_NoDup _ Hnd) Hx).
        split; [lia|]. split; [reflexivity|].
        destruct (Z.leb_spec (len imgs) (len os)); [lia|]. reflexivity.
      * rewrite label_image_noop by (right; rewrite Himg; lia).
        rewrite combine_full by (unfold len in Hge; lia).
        split; [lia|]. split; [exact Hr|]. rewrite Hf.
        destruct (Z.leb_spec (len imgs) (len os)); [|lia].
        destruct (Z.leb_spec (len imgs) (len os + 1)); [|lia]. reflexivity.
    + rewrite app_nil_r.
      destruct (current_index_background ImageReady (run tr s0)) as (-> & -> & ->);
        auto.
    + rewrite app_nil_r.
      destruct (current_index_background (LoaderStep id) (run tr s0))
        as (-> & -> & ->); eauto.
Qed.

Lemma loaded_index tr :
  session_trace tr ->
  current_index (run tr s0) = Z.min (len (labels tr)) (len imgs).
Proof.
  induction tr as [|e tr IH] using rev_ind; intros Htr.
  - destruct (load_folder_restart w folder listing folder_chosen some_image)
      as (_ & _ & A3 & _).
    cbn [run foldl labels]. rewrite A3. unfold len. simpl length. lia.
  - apply session_trace_snoc in Htr as [Htr He]. rewrite run_snoc.
    destruct (loaded_images tr Htr) as [Himg _].
    specialize (IH Htr). rewrite labels_snoc.
    destruct e as [f l|o| |id]; [discriminate| | |].
    + simpl step. rewrite len_app.
      destruct (Z.lt_ge_cases (len (labels tr)) (len imgs)) as [Hlt|Hge].
      * destruct (label_image_advance o (run tr s0)) as (x & _ & ->).
        { rewrite Himg, IH. unfold len in *. lia. }
        rewrite current_index_show_current_image. proj. lia.
      * rewrite label_image_noop by (right; rewrite Himg; lia). lia.
    + rewrite app_nil_r. rewrite <- IH.
      apply (current_index_background ImageReady). auto.
    + rewrite app_nil_r. rewrite <- IH.
      apply (current_index_background (LoaderStep id)). eauto.
Qed.

Lemma loaded_supervisor tr :
  session_trace tr ->
  loaded_up_to (run tr s0) =
    coverage (Z.min (current_index (run tr s0)) (len imgs - 1))
  /\ exists l, current_loader (run tr s0) = Some l
       /\ start_index l = (loaded_up_to (run tr s0) - 20)%Z
       /\ running l = negb (len imgs <=? current_index (run tr s0))%Z
       /\ ld_images l = imgs /\ ld_folder l = folder.
Proof.
  induction tr as [|e tr IH] using rev_ind; intros Htr.
  - destruct (load_folder_restart w folder listing folder_chosen some_image)
      as (_ & _ & A3 & _ & _ & A6 & _ & A8 & _).
    cbn [run foldl]. rewrite A3, A6, A8. split.
    + destruct imgs as [|x r]; [contradiction|].
      rewrite Z.min_l by (unfold len; simpl length; lia). reflexivity.
    + eexists. split; [reflexivity|]. simpl.
      destruct imgs as [|x r]; [contradiction|]. repeat split.
  - apply session_trace_snoc in Htr as [Htr He]. rewrite run_snoc.
    destruct (loaded_images tr Htr) as [Himg Hfol].
    pose proof (loaded_index tr Htr) as Hc.
    destruct (IH Htr) as (HL & l & Hl & Hstart & Hrun & Hli & Hlf). clear IH.
    set (s := run tr s0) in *. set (c := current_index s) in *.
    assert (Hc0 : (0 <= c <= len imgs)%Z) by (unfold len in *; lia).
    destruct e as [f li|o| |id]; [discriminate| | |].
    + simpl step.
      destruct (Z.lt_ge_cases c (len imgs)) as [Hlt|Hge].
      * destruct (label_image_advance o s) as (x & _ & ->).
        { rewrite Himg. fold c. lia. }
        set (s1 := set_current_index _ _).
        assert (Hl1 : current_loader s1 = Some l) by exact Hl.
        rewrite current_index_show_current_image.
        change (current_index s1) with (c + 1)%Z.
        destruct (Z.lt_ge_cases (c + 1) (len imgs)) as [Hlt1|Hge1].
        -- destruct (show_current_image_policy s1) as [-> ->].
           { change (images s1) with (images s). rewrite Himg.
             change (current_index s1) with (c + 1)%Z. lia. }
           change (loaded_up_to s1) with (loaded_up_to s).
           change (current_index s1) with (c + 1)%Z.
           change (images s1) with (images s).
           change (image_folder s1) with (image_folder s).
           rewrite Himg, Hfol, HL.
           rewrite Z.min_l by lia. rewrite Z.min_l by lia.
           unfold coverage, PREFETCH_COUNT.
           destruct (Z.leb_spec (len imgs) (c + 1)) as [?|_]; [lia|].
           destruct (Z.leb_spec (len imgs) c) as [?|_]; [lia|].
           destruct (Z.leb_spec (20 * ((c + 10) / 20 + 1) - 10) (c + 1)).
           ++ split; [pose proof (Z.div_mod (c + 10) 20);
                      pose proof (Z.mod_pos_bound (c + 10) 20);
                      pose proof (Z.div_mod (c + 1 + 10) 20);
                      pose proof (Z.mod_pos_bound (c + 1 + 10) 20); nia|].
              eexists. split; [reflexivity|]. simpl. repeat split. lia.
           ++ split; [pose proof (Z.div_mod (c + 10) 20);
                      pose proof (Z.mod_pos_bound (c + 10) 20);
                      pose proof (Z.div_mod (c + 1 + 10) 20);
                      pose proof (Z.mod_pos_bound (c + 1 + 10) 20); nia|].
              exists l. rewrite Hl1. repeat split; try assumption.
              rewrite Hstart, HL. unfold coverage.
              rewrite Z.min_l by lia. reflexivity.
        -- rewrite show_current_image_finish
             by (change (images s1) with (images s); rewrite Himg;
                 change (current_index s1) with (c + 1)%Z; lia).
           rewrite current_loader_finish, Hl1.
           assert (E : loaded_up_to (finish s1) = loaded_up_to s) by frame.
           rewrite E, HL. split; [f_equal; lia|].
           exists (stop l). split; [reflexivity|]. simpl.
           rewrite <- HL. repeat split; try assumption.
           now destruct (Z.leb_spec (len imgs) (c + 1)); [|lia].
      * rewrite label_image_noop by (right; rewrite Himg; fold c; lia).
        split; [exact HL|]. exists l. auto.
    + destruct (supervisor_background ImageReady s) as (-> & _ & _); [auto|].
      destruct (current_index_background ImageReady s) as (-> & _ & _); [auto|].
      rewrite current_loader_ImageReady. split; [exact HL|]. exists l. auto.
    + destruct (supervisor_background (LoaderStep id) s) as (-> & _ & _);
        [eauto|].
      destruct (current_index_background (LoaderStep id) s) as (-> & _ & _);
        [eauto|].
      split; [exact HL|]. change (step (LoaderStep id) s) with (thread_step id s).
      destruct (current_loader_thread_step id s l Hl)
        as (l' & -> & E1 & E2 & E3 & E4).
      exists l'. rewrite E1, E2, E3, E4. auto.
Qed.


(** *** On a window at rest

    No signal is queued in [w] and no loader thread of [w] is running. *)

Section AtRest.

Hypothesis no_signal : events w = [].
Hypothesis no_thread : running_loaders w = [].

Lemma loaded_no_stale tr : session_trace tr -> no_stale (run tr s0).
Proof.
  induction tr as [|e tr IH] using rev_ind; intros Htr.
  - apply no_stale_load_folder;
      [exact folder_chosen|exact no_signal|
       now apply running_loaders_quiescent].
  - apply session_trace_snoc in Htr as [Htr He]. rewrite run_snoc.
    now apply no_stale_step; [|apply IH].
Qed.

(** What is cached is what decoding gives. *)
Lemma loaded_cache tr k pm name :
  session_trace tr ->
  cache (run tr s0) !! k = Some pm -> imgs !! Z.to_nat k = Some name ->
  pm = scaled (QPixmap folder name) /\ isNull pm = false
  /\ (0 <= k < loaded_up_to (run tr s0))%Z /\ (k < len imgs)%Z.
Proof.
  intros Htr Hk Hn. destruct (loaded_no_stale tr Htr) as (_ & _ & _ & Hc).
  destruct (loaded_images tr Htr) as [Himg Hfol].
  destruct (Hc k pm Hk) as [Hd Hb]. rewrite Himg, Hfol in Hd.
  split; [apply (decoded_from_scaled imgs folder k); [lia|assumption..]|].
  split; [now destruct Hd as (n & a & _ & _ & ->)|].
  split; [exact Hb|]. apply (decoded_from_bound imgs folder k pm); [lia|exact Hd].
Qed.

(** While an item is presented, the window shows its name and its
    picture, decoded and scaled. *)
Lemma loaded_shown tr name :
  session_trace tr ->
  imgs !! Z.to_nat (current_index (run tr s0)) = Some name ->
  (current_index (run tr s0) < len imgs)%Z ->
  image_label (ui (run tr s0)) = Some (scaled (QPixmap folder name))
  /\ name_label (ui (run tr s0)) = name.
Proof.
  intros Htr. revert name.
  induction tr as [|e tr IH] using rev_ind; intros name.
  - destruct (load_folder_restart w folder listing folder_chosen some_image)
      as (_ & _ & A3 & _ & _ & _ & _ & _ & A9).
    cbn [run foldl]. rewrite A3. intros Hn _. now apply A9.
  - apply session_trace_snoc in Htr as [Htr Hev]. rewrite run_snoc.
    destruct (loaded_images tr Htr) as [Himg Hfol].
    pose proof (loaded_index tr Htr) as Hc.
    pose proof (loaded_cache tr) as Hcache.
    specialize (IH Htr). set (s := run tr s0) in *.
    assert (H0 : (0 <= current_index s)%Z) by (unfold len in *; lia).
    destruct e as [f l|o| |id]; [discriminate| | |].
    + simpl step.
      destruct (Z.lt_ge_cases (current_index s) (len imgs)) as [Hlt|Hge].
      * destruct (label_image_advance o s) as (x & _ & ->).
        { rewrite Himg. lia. }
        set (s1 := set_current_index _ _).
        rewrite current_index_show_current_image.
        change (current_index s1) with (current_index s + 1)%Z.
        intros Hn Hlt1.
        assert (H1 : (0 <= current_index s1 < len (images s1))%Z).
        { change (images s1) with (images s).
          change (current_index s1) with (current_index s + 1)%Z.
          rewrite Himg. lia. }
        assert (H2 : images s1 !! Z.to_nat (current_index s1) = Some name).
        { change (images s1) with (images s).
          change (current_index s1) with (current_index s + 1)%Z.
          now rewrite Himg. }
        rewrite (image_label_show_current_image s1 name H1 H2),
          (name_label_show_current_image s1 name H1 H2).
        split; [|reflexivity].
        change (cache s1) with (cache s).
        change (current_index s1) with (current_index s + 1)%Z.
        change (image_folder s1) with (image_folder s). rewrite Hfol.
        destruct (cache s !! (current_index s + 1)%Z) as [pm|] eqn:Ec;
          [|reflexivity].
        f_equal. now apply (Hcache _ _ name Htr Ec).
      * rewrite label_image_noop by (right; rewrite Himg; lia). apply IH.
    + destruct (current_index_background ImageReady s) as (-> & _ & _);
        [auto|].
      intros Hn Hlt. rewrite name_label_background by auto.
      rewrite image_label_ImageReady. now apply IH.
    + destruct (current_index_background (LoaderStep id) s) as (-> & _ & _);
        [eauto|].
      rewrite name_label_background by eauto.
      simpl step. rewrite ui_thread_step. apply IH.
Qed.

End AtRest.

End Loaded.

(** ** One session on a fresh window *)

Lemma session_images folder listing :
  folder <> "" -> recognized listing <> [] -> forall tr,
  session_trace tr ->
  images (run tr (session_start folder listing)) = recognized listing
  /\ image_folder (run tr (session_start folder listing)) = folder.
Proof. exact (loaded_images init folder listing). Qed.

Lemma session_cursor folder listing :
  folder <> "" -> recognized listing <> [] -> forall tr,
  NoDup listing -> session_trace tr ->
  current_index (run tr (session_start folder listing))
  = Z.min (len (labels tr)) (len (recognized listing))
  /\ results (run tr (session_start folder listing))
     = combine (recognized listing) (labels tr)
  /\ files (run tr (session_start folder listing)) =
     if (len (recognized listing) <=? len (labels tr))%Z
     then [(output_path, json_dump (combine (recognized listing) (labels tr)))]
     else [].
Proof. exact (loaded_cursor init folder listing). Qed.

Lemma session_index folder listing :
  folder <> "" -> recognized listing <> [] -> forall tr,
  session_trace tr ->
  current_index (run tr (session_start folder listing))
  = Z.min (len (labels tr)) (len (recognized listing)).
Proof. exact (loaded_index init folder listing). Qed.

Lemma session_supervisor folder listing :
  folder <> "" -> recognized listing <> [] -> forall tr,
  session_trace tr ->
  loaded_up_to (run tr (session_start folder listing)) =
    coverage (Z.min (current_index (run tr (session_start folder listing)))
                    (len (recognized listing) - 1))
  /\ exists l, current_loader (run tr (session_start folder listing)) = Some l
       /\ start_index l
          = (loaded_up_to (run tr (session_start folder listing)) - 20)%Z
       /\ running l
          = negb (len (recognized listing)
                  <=? current_index (run tr (session_start folder listing)))%Z
       /\ ld_images l = recognized listing /\ ld_folder l = folder.
Proof. exact (loaded_supervisor init folder listing). Qed.

(** ** More on the supervisor and on the label map *)

Lemma length_heap_cancel_and_join s :
  length (heap (cancel_and_join s)) = length (heap s).
Proof.
  unfold cancel_and_join. destruct (loader s) as [id|]; [|reflexivity].
  destruct (loader_isRunning id s); [|reflexivity].
  unfold loader_wait. proj.
  destruct (alter stop id (heap s) !! id) as [l|] eqn:E.
  - destruct (wait l) as [l' es]. proj.
    now rewrite length_insert, length_alter.
  - proj. now rewrite length_alter.
Qed.

Lemma length_heap_show_current_image s :
  (0 <= current_index s < len (images s))%Z ->
  length (heap (show_current_image s)) =
  length (heap s)
  + (if (loaded_up_to s - 10 <=? current_index s)%Z then 1 else 0).
Proof.
  intros H. destruct (show_current_image_present s H) as (x & _ & ->).
  set (s1 := present x _).
  assert (E1 : loaded_up_to s1 = loaded_up_to s) by (unfold s1; frame).
  assert (E2 : current_index s1 = current_index s) by (unfold s1; frame).
  assert (E3 : heap s1 = heap s) by (unfold s1; frame).
  change (heap (cleanup_cache ?X)) with (heap X).
  unfold ensure_coverage. rewrite E1, E2, half_window.
  destruct (loaded_up_to s - 10 <=? current_index s)%Z.
  - proj. rewrite length_app, length_heap_cancel_and_join, E3. reflexivity.
  - rewrite E3. lia.
Qed.

Lemma quiescent_running_loaders s : quiescent s -> running_loaders s = [].
Proof.
  intros H. destruct (running_loaders s) as [|a r] eqn:E; [reflexivity|].
  assert (Ha : a ∈ running_loaders s) by (rewrite E; apply list_elem_of_here).
  apply running_loaders_spec in Ha as (l & Hl & Hr).
  rewrite (H a l Hl) in Hr. discriminate.
Qed.

Lemma cancel_and_join_previous s id l :
  loader s = Some id -> heap s !! id = Some l -> isRunning l = true ->
  exists l', heap (cancel_and_join s) !! id = Some l'
    /\ running l' = false /\ isRunning l' = false.
Proof.
  intros Hid Hl Hr. unfold cancel_and_join, loader_isRunning.
  rewrite Hid, Hl, Hr. unfold loader_wait. proj.
  rewrite list_lookup_alter_eq, Hl. simpl.
  destruct (wait (stop l)) as [l' es] eqn:Hw. proj.
  exists l'. split.
  - apply list_lookup_insert_eq. rewrite length_alter.
    now apply lookup_lt_Some in Hl.
  - replace l' with (wait (stop l)).1 by now rewrite Hw. split.
    + unfold wait. now rewrite run_thread_running.
    + apply wait_returns.
Qed.

Lemma loader_range_spec l k :
  k ∈ loader_range l <-> (start_index l <= k < range_stop l)%Z.
Proof.
  unfold loader_range. rewrite list_elem_of_fmap. split.
  - intros (j & -> & Hj). apply list_elem_of_In, in_seq in Hj. lia.
  - intros H. exists (Z.to_nat (k - start_index l)). split; [lia|].
    apply list_elem_of_In, in_seq. lia.
Qed.

Lemma combine_fst_full (l : list string) : forall (os : list string),
  length l <= length os -> (combine l os).*1 = l.
Proof.
  induction l as [|x l IH]; intros [|o os]; simpl; try reflexivity; try lia.
  intros H. f_equal. apply IH. lia.
Qed.

Lemma combine_snd_Forall (P : string -> Prop) (l : list string) :
  forall (os : list string),
  Forall P os -> Forall (fun kv => P kv.2) (combine l os).
Proof.
  induction l as [|x l IH]; intros [|o os] H; simpl; try constructor.
  - now inversion H.
  - apply IH. now inversion H.
Qed.

Lemma combine_constant (v : string) (l : list string) :
  forall (os : list string),
  length l <= length os -> Forall (fun o => o = v) os ->
  combine l os = map (fun n => (n, v)) l.
Proof.
  induction l as [|x l IH]; intros [|o os]; simpl; try reflexivity; try lia.
  intros Hlen H. inversion H; subst. f_equal. apply IH; [lia|assumption].
Qed.

Lemma current_index_label_image o s :
  current_index (label_image o s) = current_index s
  \/ current_index (label_image o s) = (current_index s + 1)%Z.
Proof.
  unfold label_image. destruct (_ || _)%bool; [now left|].
  destruct (getitem _ _); [|now left].
  right. now rewrite current_index_show_current_image.
Qed.

Lemma current_index_nondecreasing tr s :
  session_trace tr -> (current_index s <= current_index (run tr s))%Z.
Proof.
  induction tr as [|e tr IH] using rev_ind; intros Htr; [simpl; lia|].
  apply session_trace_snoc in Htr as [Htr He]. rewrite run_snoc.
  specialize (IH Htr). destruct e as [f l|o| |id]; [discriminate| | |].
  - simpl. destruct (current_index_label_image o (run tr s)); lia.
  - destruct (current_index_background ImageReady (run tr s)) as (-> & _);
      [auto|lia].
  - destruct (current_index_background (LoaderStep id) (run tr s))
      as (-> & _); [eauto|lia].
Qed.


(** ** A folder without images, whatever the window *)



(** ** The progress line *)


(** While an item is presented the progress line is up to date; every
    handler and every step of a loader keeps it so. *)
Local Abbreviation progress_ok s :=
  ((0 <= current_index s)%Z
   /\ ((current_index s < len (images s))%Z ->
       progress_label (ui s) =
       progress_text (current_index s + 1) (len (images s))
         (count_at_or_after (cache s) (current_index s)))).










(** * The claims *)

(** C1. Cache window: [cleanup_cache] removes exactly the keys below
    [current_index - 5] and touches nothing else, so that after the eviction
    pass every index in the cache is at least [current_index - 5]; this is
    the state in which [show_current_image] leaves the window whenever it
    presents an item, and so the state after every [label_image] that moves
    on to a further item. *)
Theorem cache_window (s : State) (k : Z) (o : string) :
  cache (cleanup_cache s) !! k =
    (if (k <? current_index s - 5)%Z then None else cache s !! k)
  /\ current_index (cleanup_cache s) = current_index s
  /\ (is_Some (cache (cleanup_cache s) !! k) -> (current_index s - 5 <= k)%Z)
  /\ ((0 <= current_index s < len (images s))%Z ->
      is_Some (cache (show_current_image s) !! k) ->
      (current_index (show_current_image s) - 5 <= k)%Z)
  /\ ((0 <= current_index s)%Z -> (current_index s + 1 < len (images s))%Z ->
      is_Some (cache (label_image o s) !! k) ->
      (current_index (label_image o s) - 5 <= k)%Z).
Proof.
  assert (Hshow : forall s', (0 <= current_index s' < len (images s'))%Z ->
            is_Some (cache (show_current_image s') !! k) ->
            (current_index (show_current_image s') - 5 <= k)%Z).
  { intros s' H. rewrite current_index_show_current_image.
    destruct (show_current_image_present s' H) as (x & _ & ->).
    rewrite cleanup_cache_lookup, current_index_ensure_coverage,
      current_index_present.
    change (current_index (update_progress ?X)) with (current_index s').
    destruct (Z.ltb_spec k (current_index s' - 5)); [|lia].
    intros [p Hp]. discriminate. }
  split; [apply cleanup_cache_lookup|]. split; [reflexivity|]. split.
  - rewrite cleanup_cache_lookup.
    destruct (Z.ltb_spec k (current_index s - 5)); [|lia].
    intros [p Hp]. discriminate.
  - split; [apply Hshow|]. intros H0 H1.
    destruct (label_image_advance o s) as (x & _ & ->); [lia|].
    apply Hshow. proj. lia.
Qed.

(** C2. Single loader: in every state the program can reach, at most one
    loader thread has not returned; and [start_preload] first stops and waits
    for the loader that is still running, so that no loader at all is running
    at the moment the successor is created and started. *)
Theorem single_loader (tr : list Event) (from_index : Z) :
  length (running_loaders (run tr init)) <= 1
  /\ start_preload from_index (run tr init) =
     spawn from_index (cancel_and_join (run tr init))
  /\ running_loaders (cancel_and_join (run tr init)) = []
  /\ length (running_loaders (start_preload from_index (run tr init))) <= 1
  /\ (forall id l,
        loader (run tr init) = Some id ->
        heap (run tr init) !! id = Some l ->
        isRunning l = true ->
        exists l', heap (cancel_and_join (run tr init)) !! id = Some l'
          /\ running l' = false /\ isRunning l' = false).
Proof.
  pose proof (only_current_runs_run tr init only_current_runs_init) as H.
  split; [now apply only_current_runs_at_most_one|].
  split; [reflexivity|].
  split; [now apply quiescent_running_loaders, cancel_and_join_quiescent|].
  split;
    [now apply only_current_runs_at_most_one, only_current_runs_start_preload|].
  intros id l. apply cancel_and_join_previous.
Qed.

(** C3. Restart policy: while an item is presented, a new loader is started
    exactly when [current_index >= loaded_up_to - 10]; it starts at the old
    [loaded_up_to], which then advances by 20.  In a session over more than
    ten images, the loader from 0 is still the current one after nine labels,
    and the tenth label starts the loader that covers the indices from 20 up
    to 40 that exist. *)
Theorem restart_policy :
  (forall s : State,
     (0 <= current_index s < len (images s))%Z ->
     let restart :=
       (loaded_up_to s - PREFETCH_COUNT / 2 <=? current_index s)%Z in
     loaded_up_to (show_current_image s) =
       (if restart then loaded_up_to s + PREFETCH_COUNT else loaded_up_to s)%Z
     /\ current_loader (show_current_image s) =
       (if restart
        then Some {| ld_images := images s; ld_folder := image_folder s;
                     start_index := loaded_up_to s; running := true;
                     thread := AtLoop (loaded_up_to s) |}
        else current_loader s)
     /\ length (heap (show_current_image s)) =
        length (heap s) + (if restart then 1 else 0))
  /\ (forall (folder : string) (listing : list string) (tr : list Event)
        (o : string),
        folder <> "" -> (10 < len (recognized listing))%Z ->
        session_trace tr -> length (labels tr) = 9 ->
        let before := run tr (session_start folder listing) in
        let after := step (Label o) before in
        let started :=
          {| ld_images := recognized listing; ld_folder := folder;
             start_index := 20; running := true; thread := AtLoop 20 |} in
        loaded_up_to before = 20%Z
        /\ (exists l, current_loader before = Some l /\ start_index l = 0%Z)
        /\ current_index after = 10%Z
        /\ loaded_up_to after = 40%Z
        /\ current_loader after = Some started
        /\ length (heap after) = length (heap before) + 1
        /\ forall k, k ∈ loader_range started <->
                     (20 <= k < 40)%Z /\ (k < len (recognized listing))%Z).
Proof.
  split.
  { intros s Hs. cbv zeta. rewrite half_window.
    destruct (show_current_image_policy s Hs) as [-> ->].
    rewrite (length_heap_show_current_image s Hs). auto. }
  intros folder listing tr o Hf HN Htr Hlab. cbv zeta.
  assert (Hsome : recognized listing <> []).
  { intros E. rewrite E in HN. discriminate. }
  destruct (session_images folder listing Hf Hsome tr Htr) as [Himg Hfol].
  pose proof (session_index folder listing Hf Hsome tr Htr) as Hc.
  destruct (session_supervisor folder listing Hf Hsome tr Htr)
    as (HL & l & Hl & Hstart & _).
  set (before := run tr (session_start folder listing)) in *.
  assert (Hc9 : current_index before = 9%Z) by (unfold len in *; lia).
  rewrite Hc9, Z.min_l in HL by lia. change (coverage 9) with 20%Z in HL.
  split; [exact HL|]. split.
  { exists l. split; [exact Hl|]. lia. }
  simpl step. destruct (label_image_advance o before) as (x & _ & ->).
  { rewrite Himg, Hc9. lia. }
  set (s1 := set_current_index _ _).
  assert (H1 : (0 <= current_index s1 < len (images s1))%Z).
  { change (images s1) with (images before).
    change (current_index s1) with (current_index before + 1)%Z.
    rewrite Himg, Hc9. lia. }
  rewrite current_index_show_current_image.
  destruct (show_current_image_policy s1 H1) as [-> ->].
  rewrite (length_heap_show_current_image s1 H1).
  change (loaded_up_to s1) with (loaded_up_to before).
  change (current_index s1) with (current_index before + 1)%Z.
  change (images s1) with (images before).
  change (image_folder s1) with (image_folder before).
  change (heap s1) with (heap before).
  rewrite HL, Hc9, Himg, Hfol.
  change (20 - 10 <=? 9 + 1)%Z with true. cbv iota.
  split; [lia|]. split; [reflexivity|]. split; [reflexivity|].
  split; [reflexivity|].
  intros k. rewrite loader_range_spec.
  unfold range_stop, PREFETCH_COUNT. simpl. lia.
Qed.

(** C4. Cursor monotonicity: [label_image] below the end of the sequence
    adds exactly one to [current_index], at the end it changes nothing, and
    along any trace of a session [current_index] never decreases; counted
    from the start of a session, it is the number of labels given, capped at
    the number of images. *)
Theorem cursor_monotone (s : State) (o : string) :
  ((0 <= current_index s < len (images s))%Z ->
   current_index (label_image o s) = (current_index s + 1)%Z)
  /\ ((len (images s) <= current_index s)%Z ->
      current_index (label_image o s) = current_index s)
  /\ (forall tr, session_trace tr ->
        (current_index s <= current_index (run tr s))%Z)
  /\ (forall folder listing tr,
        folder <> "" -> recognized listing <> [] -> session_trace tr ->
        current_index (run tr (session_start folder listing)) =
        Z.min (len (labels tr)) (len (recognized listing))).
Proof.
  split; [|split; [|split]].
  - intros H. destruct (label_image_advance o s H) as (x & _ & ->).
    now rewrite current_index_show_current_image.
  - intros H. now rewrite label_image_noop by auto.
  - intros tr. apply current_index_nondecreasing.
  - intros folder listing tr Hf Hsome Htr. now apply session_index.
Qed.

(** C5 (as amended). Completion: after as many labels as there are images,
    the label map has exactly one entry per image, in the order of the
    sequence, and the loader the window refers to has been told to stop: its
    flag is cleared.  It is not waited for, but it returns within two steps
    of its thread and emits at most one more signal. *)
Theorem labels_complete (folder : string) (listing : list string)
    (tr : list Event) :
  folder <> "" -> NoDup listing -> session_trace tr ->
  len (labels tr) = len (recognized listing) ->
  let s := run tr (session_start folder listing) in
  results s = combine (recognized listing) (labels tr)
  /\ (results s).*1 = recognized listing
  /\ len (results s) = len (recognized listing)
  /\ current_index s = len (recognized listing)
  /\ forall l, current_loader s = Some l ->
       running l = false
       /\ (let '(l1, e1) := worker_step l in
           let '(l2, e2) := worker_step l1 in
           isRunning l2 = false /\ length (e1 ++ e2) <= 1).
Proof.
  intros Hf Hnd Htr Hlen. cbv zeta.
  destruct (recognized listing) as [|x r] eqn:E.
  - unfold session_start. rewrite (load_folder_empty folder listing init Hf E).
    rewrite idle_run by (assumption || reflexivity).
    repeat split; discriminate.
  - assert (Hsome : recognized listing <> []) by (rewrite E; discriminate).
    destruct (session_cursor folder listing Hf Hsome tr Hnd Htr)
      as (Hc & Hr & _).
    destruct (session_supervisor folder listing Hf Hsome tr Htr)
      as (_ & l & Hl & _ & Hrun & _).
    rewrite E in *. rewrite Hr, Hc, Hlen.
    assert (Hfst : (combine (x :: r) (labels tr)).*1 = x :: r).
    { apply combine_fst_full. unfold len in Hlen. lia. }
    split; [reflexivity|]. split; [exact Hfst|]. split.
    { unfold len. rewrite <- Hfst at 2. now rewrite length_fmap. }
    split; [lia|].
    intros l' Hl'. rewrite Hl in Hl'. injection Hl' as <-.
    assert (Hstop : running l = false).
    { rewrite Hrun, Hc, Hlen, Z.min_id.
      now destruct (Z.leb_spec (len (x :: r)) (len (x :: r))); [|lia]. }
    split; [exact Hstop|]. now apply stopped_returns.
Qed.



(** C8. Output: nothing is written before the last label; the label that
    brings [current_index] to the number of images writes, to
    [project_root/data/orientations.json], one JSON object with one member
    per image, in the order of the sequence, each on its own line indented by
    two spaces and mapped to the orientation given, which is ["portrait"] or
    ["landscape"]; when every label was ["portrait"], every image is mapped to
    ["portrait"]. *)
Theorem output_serialization (folder : string) (listing : list string)
    (tr : list Event) :
  folder <> "" -> recognized listing <> [] -> NoDup listing ->
  session_trace tr ->
  Forall (fun o => o = "portrait" \/ o = "landscape") (labels tr) ->
  let imgs := recognized listing in
  let s := run tr (session_start folder listing) in
  ((len (labels tr) < len imgs)%Z -> files s = [])
  /\ ((len imgs <= len (labels tr))%Z ->
      files s =
        [(project_root +:+ "/data/orientations.json",
          "{" +:+ newline
            +:+ String.concat ("," +:+ newline)
                  (map (fun kv => "  " +:+ json_string kv.1 +:+ ": "
                                       +:+ json_string kv.2)
                       (results s))
            +:+ newline +:+ "}")]
      /\ results s = combine imgs (labels tr)
      /\ (results s).*1 = imgs
      /\ Forall (fun kv => kv.2 = "portrait" \/ kv.2 = "landscape") (results s)
      /\ (Forall (fun o => o = "portrait") (labels tr) ->
          results s = map (fun n => (n, "portrait")) imgs)).
Proof.
  intros Hf Hsome Hnd Htr Hlab. cbv zeta.
  destruct (session_cursor folder listing Hf Hsome tr Hnd Htr)
    as (_ & Hr & Hfiles).
  split.
  - intros Hlt. rewrite Hfiles.
    now destruct (Z.leb_spec (len (recognized listing)) (len (labels tr)));
      [lia|].
  - intros Hge. rewrite Hfiles, Hr.
    destruct (Z.leb_spec (len (recognized listing)) (len (labels tr)));
      [|lia].
    assert (Hlen : length (recognized listing) <= length (labels tr))
      by (unfold len in *; lia).
    split.
    { unfold output_path, json_dump.
      destruct (recognized listing) as [|x r]; [contradiction|].
      destruct (labels tr) as [|o os]; [simpl in Hlen; lia|]. reflexivity. }
    split; [reflexivity|].
    split; [now apply combine_fst_full|].
    split.
    { now apply (combine_snd_Forall
                   (fun o => o = "portrait" \/ o = "landscape")). }
    intros Hall. now apply combine_constant.
Qed.


(** C10. [label_image] on an empty sequence, or once [current_index] has
    reached the number of images, returns at once: the whole state, label
    map, cursor, cache, loaders and files included, is as it was. *)
Theorem advance_noop (s : State) (o : string) :
  images s = [] \/ (len (images s) <= current_index s)%Z ->
  label_image o s = s
  /\ step (Label o) s = s
  /\ keyPressEvent o s = s.
Proof.
  intros H. pose proof (fun o' => label_image_noop o' s H) as Hn.
  split; [apply Hn|]. split; [apply Hn|].
  unfold keyPressEvent. rewrite !Hn. now repeat destruct (String.eqb _ _).
Qed.


(** * Further properties *)

(** ** A loader run from start to end *)

Lemma loader_range_seqZ l :
  loader_range l = seqZ (start_index l) (range_stop l - start_index l).
Proof.
  unfold loader_range, seqZ. apply map_ext. intros k. lia.
Qed.

Lemma run_thread_whole (n : nat) : forall l i,
  thread l = AtLoop i -> running l = true -> (0 <= i)%Z ->
  n = Z.to_nat (range_stop l - i) ->
  run_thread (2 * n + 1) l =
  (set_thread Finished l, concat (map (signal_for l) (seqZ i (Z.of_nat n)))).
Proof.
  induction n as [|n IH]; intros l i Ht Hr Hi Hn.
  - simpl. unfold worker_step. rewrite Ht.
    destruct (Z.ltb_spec i (range_stop l)); [lia|]. reflexivity.
  - replace (2 * S n + 1) with (S (S (2 * n + 1))) by lia.
    assert (Hlt : (i < range_stop l)%Z) by lia.
    cbn [run_thread]. unfold worker_step at 1. rewrite Ht, Hr.
    destruct (Z.ltb_spec i (range_stop l)); [|lia].
    unfold worker_step at 1. cbn [thread set_thread ld_images ld_folder].
    assert (Hlen : (0 <= i < len (ld_images l))%Z).
    { unfold range_stop in Hlt. lia. }
    destruct (getitem_in_range _ _ Hlen) as (x & Hg & _). rewrite Hg.
    rewrite seqZ_cons by lia. cbn [map concat].
    unfold signal_for at 1. rewrite Hg.
    replace (Z.pred (Z.of_nat (S n))) with (Z.of_nat n) by lia.
    replace (Z.succ i) with (i + 1)%Z by lia.
    set (l1 := set_thread (AtLoop (i + 1)) l).
    assert (IH1 : run_thread (2 * n + 1) l1 =
                  (set_thread Finished l,
                   concat (map (signal_for l) (seqZ (i + 1) (Z.of_nat n))))).
    { rewrite (IH l1 (i + 1)%Z); try reflexivity; try assumption; try lia.
      unfold l1, range_stop. cbn [start_index ld_images set_thread].
      unfold range_stop in Hn. lia. }
    change (set_thread (AtLoop (i + 1)) (set_thread (Decoding i) l)) with l1.
    destruct (QPixmap (ld_folder l) x) as [|a]; cbn [isNull scaled];
      rewrite IH1; reflexivity.
Qed.

Lemma signals_sublist l (ks : list Z) :
  (concat (map (signal_for l) ks)).*1 `sublist_of` ks.
Proof.
  induction ks as [|k ks IH]; [reflexivity|].
  cbn [map concat]. rewrite fmap_app. unfold signal_for at 1.
  destruct (getitem (ld_images l) k) as [x|];
    [destruct (QPixmap (ld_folder l) x)|]; simpl;
    try (now apply sublist_cons); now apply sublist_skip.
Qed.

(** X1. [ImageLoader.run], when it is not stopped, decodes the indices of
    its range in increasing order, emits one signal for each index whose
    file decodes, none for the others, and returns. *)
Theorem loader_runs_whole_range (l : ImageLoader) :
  thread l = AtLoop (start_index l) -> running l = true ->
  (0 <= start_index l)%Z ->
  wait l = (set_thread Finished l,
            concat (map (signal_for l) (loader_range l)))
  /\ (wait l).2.*1 `sublist_of` loader_range l
  /\ (forall k p, (k, p) ∈ (wait l).2 ->
        (start_index l <= k < start_index l + PREFETCH_COUNT)%Z
        /\ (k < len (ld_images l))%Z /\ isNull p = false).
Proof.
  intros Ht Hr H0.
  assert (Hw : wait l = (set_thread Finished l,
                         concat (map (signal_for l) (loader_range l)))).
  { unfold wait, steps_left. rewrite Ht, loader_range_seqZ.
    destruct (Z.le_gt_cases (start_index l) (range_stop l)) as [Hle|Hgt].
    - rewrite (run_thread_whole (Z.to_nat (range_stop l - start_index l))
                 l (start_index l)); try assumption; try reflexivity.
      now rewrite Z2Nat.id by lia.
    - replace (Z.to_nat (range_stop l - start_index l)) with 0 by lia.
      rewrite (run_thread_whole 0 l (start_index l)); try assumption; [|lia].
      now rewrite !seqZ_nil by lia. }
  split; [exact Hw|]. rewrite Hw. cbn [snd].
  split.
  - apply signals_sublist.
  - intros k p Hin. apply list_elem_of_In, in_concat in Hin as (sig & Hsig & Hin).
    apply in_map_iff in Hsig as (k' & <- & Hk').
    apply list_elem_of_In in Hk', Hin.
    apply loader_range_spec in Hk'. unfold signal_for in Hin.
    destruct (getitem (ld_images l) k') as [x|]; [|inversion Hin].
    destruct (QPixmap (ld_folder l) x) as [|a]; [inversion Hin|].
    apply list_elem_of_singleton in Hin. injection Hin as -> ->.
    unfold range_stop in Hk'. split; [lia|]. split; [lia|reflexivity].
Qed.

(** ** Closing the window *)

Lemma closeEvent_quiescent s : only_current_runs s -> quiescent (closeEvent s).
Proof.
  intros H id l. unfold closeEvent.
  destruct (loader s) as [j|] eqn:Hj.
  - unfold loader_wait. proj. rewrite list_lookup_alter_eq.
    destruct (heap s !! j) as [lj|] eqn:Elj; simpl.
    + destruct (wait (stop lj)) as [l' es] eqn:Hw. proj.
      rewrite list_lookup_insert_Some.
      intros [(-> & <- & _)|[Hne Hl]].
      * replace l' with (wait (stop lj)).1 by now rewrite Hw.
        apply wait_returns.
      * rewrite list_lookup_alter_ne in Hl by exact Hne.
        destruct (isRunning l) eqn:Hr; [|reflexivity].
        pose proof (H id l Hl Hr) as Hid. rewrite Hj in Hid. congruence.
    + proj. rewrite list_lookup_alter. intros Hl.
      destruct (decide (j = id)) as [->|Hne].
      * rewrite Elj in Hl. discriminate.
      * destruct (isRunning l) eqn:Hr; [|reflexivity].
        pose proof (H id l Hl Hr) as Hid. rewrite Hj in Hid. congruence.
  - intros Hl. destruct (isRunning l) eqn:Hr; [|reflexivity].
    pose proof (H id l Hl Hr) as Hid. rewrite Hj in Hid. discriminate.
Qed.

Lemma closeEvent_flag s l :
  current_loader (closeEvent s) = Some l -> running l = false.
Proof.
  unfold current_loader, closeEvent.
  destruct (loader s) as [j|] eqn:Hj; [|now rewrite Hj].
  unfold loader_wait. proj. rewrite list_lookup_alter_eq.
  destruct (heap s !! j) as [lj|] eqn:Elj; simpl.
  - destruct (wait (stop lj)) as [l' es] eqn:Hw. proj. rewrite Hj.
    rewrite list_lookup_insert_eq
      by (rewrite length_alter; now apply lookup_lt_Some in Elj).
    intros [= <-]. replace l' with (wait (stop lj)).1 by now rewrite Hw.
    unfold wait. now rewrite run_thread_running.
  - proj. rewrite Hj, list_lookup_alter_eq, Elj. discriminate.
Qed.

(** X2. [closeEvent]: in whatever state the window is closed, afterwards no
    loader thread is running and the loader the window refers to has its
    flag cleared; the sequence, the cursor, the label map, the cache and the
    files are as they were, and no queued signal is lost. *)
Theorem close_joins_loader (tr : list Event) :
  let s := run tr init in
  running_loaders (closeEvent s) = []
  /\ (forall l, current_loader (closeEvent s) = Some l -> running l = false)
  /\ images (closeEvent s) = images s
  /\ current_index (closeEvent s) = current_index s
  /\ results (closeEvent s) = results s
  /\ cache (closeEvent s) = cache s
  /\ files (closeEvent s) = files s
  /\ events s `prefix_of` events (closeEvent s).
Proof.
  cbv zeta. set (s := run tr init).
  pose proof (only_current_runs_run tr init only_current_runs_init) as H.
  split; [now apply quiescent_running_loaders, closeEvent_quiescent|].
  split; [apply closeEvent_flag|].
  unfold closeEvent, loader_wait. destruct (loader s) as [j|];
    [|repeat split; reflexivity].
  proj. destruct (alter stop j (heap s) !! j) as [l|];
    [destruct (wait l) as [l' es]|]; proj; repeat split;
    try reflexivity; now apply prefix_app_r.
Qed.

(** ** How far the prefetching reaches *)

Lemma coverage_bounds c :
  (0 <= c)%Z ->
  (c + 10 < coverage c <= c + 30)%Z /\ (coverage c mod 20 = 0)%Z.
Proof.
  intros H. unfold coverage.
  pose proof (Z.div_mod (c + 10) 20). pose proof (Z.mod_pos_bound (c + 10) 20).
  split; [lia|]. rewrite Z.mul_comm. apply Z.mod_mul. lia.
Qed.

(** X3. Prefetching stays ahead: in every state of a session,
    [loaded_up_to] is [20 * ((p + 10) / 20 + 1)] for the last item [p]
    presented; so, while items remain, it is a multiple of 20 that lies more
    than 10 and at most 30 beyond [current_index]. *)
Theorem prefetch_stays_ahead (folder : string) (listing : list string)
    (tr : list Event) :
  folder <> "" -> recognized listing <> [] -> session_trace tr ->
  let s := run tr (session_start folder listing) in
  let n := len (recognized listing) in
  loaded_up_to s =
    (20 * ((Z.min (current_index s) (n - 1) + 10) / 20 + 1))%Z
  /\ (loaded_up_to s mod 20 = 0)%Z
  /\ ((current_index s < n)%Z ->
      (current_index s + 10 < loaded_up_to s <= current_index s + 30)%Z).
Proof.
  intros Hf Hsome Htr. cbv zeta.
  destruct (session_supervisor folder listing Hf Hsome tr Htr) as (HL & _).
  pose proof (session_index folder listing Hf Hsome tr Htr) as Hc.
  assert (Hn : (0 < len (recognized listing))%Z).
  { destruct (recognized listing); [contradiction|]. unfold len. simpl. lia. }
  split; [exact HL|]. rewrite HL.
  assert (H0 : (0 <= current_index (run tr (session_start folder listing)))%Z)
    by (unfold len in *; lia).
  split.
  - apply coverage_bounds. lia.
  - intros Hlt. rewrite Z.min_l by lia. now apply coverage_bounds.
Qed.

(** ** The label map while the session runs *)

Lemma combine_fst_take (l : list string) : forall (os : list string),
  (combine l os).*1 = take (length os) l.
Proof.
  induction l as [|x l IH]; intros [|o os]; simpl; try reflexivity.
  f_equal. apply IH.
Qed.

Lemma combine_snd_take (l : list string) : forall (os : list string),
  (combine l os).*2 = take (length l) os.
Proof.
  induction l as [|x l IH]; intros [|o os]; simpl; try reflexivity.
  f_equal. apply IH.
Qed.

(** X4. Labels are kept in order: at every moment of a session the label
    map pairs the first images of the sequence, in order, with the labels
    given so far, in order; no label is overwritten, dropped or attached to
    another image, and labels given after the last image are ignored. *)
Theorem labels_kept_in_order (folder : string) (listing : list string)
    (tr : list Event) :
  folder <> "" -> recognized listing <> [] -> NoDup listing ->
  session_trace tr ->
  let s := run tr (session_start folder listing) in
  results s = combine (recognized listing) (labels tr)
  /\ (results s).*1 = take (length (labels tr)) (recognized listing)
  /\ (results s).*2 = take (length (recognized listing)) (labels tr)
  /\ len (results s) = current_index s.
Proof.
  intros Hf Hsome Hnd Htr. cbv zeta.
  destruct (session_cursor folder listing Hf Hsome tr Hnd Htr) as (Hc & -> & _).
  split; [reflexivity|]. split; [apply combine_fst_take|].
  split; [apply combine_snd_take|].
  rewrite Hc. unfold len. rewrite length_combine. lia.
Qed.

(** ** Doing the same thing twice *)

(** X5. Idempotence: delivering the same signal twice leaves the window as
    delivering it once does, and a second eviction pass at the same cursor
    removes nothing. *)
Theorem repeated_calls_change_nothing (s : State) (index : Z)
    (pixmap : Pixmap Asset) :
  on_image_loaded index pixmap (on_image_loaded index pixmap s) =
    on_image_loaded index pixmap s
  /\ cleanup_cache (cleanup_cache s) = cleanup_cache s.
Proof.
  split.
  - unfold on_image_loaded. rewrite !show_if_waiting_same. proj.
    rewrite insert_insert_eq. apply State_ext; proj; reflexivity.
  - apply State_ext; try reflexivity.
    apply map_eq. intros k. rewrite !cleanup_cache_lookup.
    change (current_index (cleanup_cache s)) with (current_index s).
    now destruct (k <? current_index s - 5)%Z.
Qed.

(** ** The buttons *)

Lemma buttons_show_current_image s :
  portrait_btn (ui (show_current_image s)) =
    (if (len (images s) <=? current_index s)%Z then false
     else portrait_btn (ui s))
  /\ landscape_btn (ui (show_current_image s)) =
    (if (len (images s) <=? current_index s)%Z then false
     else landscape_btn (ui s)).
Proof.
  unfold show_current_image.
  destruct (len (images s) <=? current_index s)%Z;
    [split; reflexivity|split; frame].
Qed.

Lemma buttons_background e s :
  e = ImageReady \/ (exists id, e = LoaderStep id) ->
  portrait_btn (ui (step e s)) = portrait_btn (ui s)
  /\ landscape_btn (ui (step e s)) = landscape_btn (ui s).
Proof. intros [->|[id ->]]; simpl; split; frame. Qed.

(** X6. The buttons are enabled exactly while items remain: from the start
    of a session until the last image is labelled both are enabled, and from
    then on both are disabled, so that a click does nothing. *)
Theorem buttons_follow_session (folder : string) (listing : list string)
    (tr : list Event) :
  folder <> "" -> recognized listing <> [] -> session_trace tr ->
  let s := run tr (session_start folder listing) in
  let finished := (len (recognized listing) <=? len (labels tr))%Z in
  portrait_btn (ui s) = negb finished
  /\ landscape_btn (ui s) = negb finished
  /\ (finished = true -> portrait_clicked s = s /\ landscape_clicked s = s).
Proof.
  intros Hf Hsome Htr. cbv zeta.
  assert (Hb : portrait_btn (ui (run tr (session_start folder listing)))
               = negb (len (recognized listing) <=? len (labels tr))%Z
             /\ landscape_btn (ui (run tr (session_start folder listing)))
               = negb (len (recognized listing) <=? len (labels tr))%Z).
  { induction tr as [|e tr IH] using rev_ind.
    - destruct (recognized listing) as [|x r] eqn:E; [contradiction|].
      now rewrite (session_start_nonempty folder listing x r Hf E).
    - apply session_trace_snoc in Htr as [Htr He]. rewrite run_snoc.
      destruct (session_images folder listing Hf Hsome tr Htr) as [Himg _].
      pose proof (session_index folder listing Hf Hsome tr Htr) as Hc.
      destruct (IH Htr) as [IH1 IH2]. clear IH. rewrite labels_snoc.
      set (s := run tr (session_start folder listing)) in *.
      destruct e as [f l|o| |id]; [discriminate| | |].
      + simpl step. rewrite len_app.
        destruct (Z.leb_spec (len (recognized listing)) (len (labels tr)))
          as [Hge|Hlt].
        * rewrite label_image_noop by (right; rewrite Himg; lia).
          rewrite IH1, IH2.
          now destruct (Z.leb_spec (len (recognized listing))
                          (len (labels tr) + 1)); [|lia].
        * destruct (label_image_advance o s) as (x & _ & ->).
          { rewrite Himg, Hc. unfold len in *. lia. }
          destruct (buttons_show_current_image
                      (set_current_index (current_index s + 1)
                         (set_results (dict_set x o (results s)) s)))
            as [-> ->].
          proj. rewrite Himg, Hc, IH1, IH2, Z.min_l by lia.
          now destruct (Z.leb_spec (len (recognized listing))
                          (len (labels tr) + 1)).
      + rewrite app_nil_r.
        destruct (buttons_background ImageReady s) as [-> ->]; auto.
      + rewrite app_nil_r.
        destruct (buttons_background (LoaderStep id) s) as [-> ->]; eauto. }
  destruct Hb as [Hp Hl]. split; [exact Hp|]. split; [exact Hl|].
  intros Hfin. unfold portrait_clicked, landscape_clicked.
  rewrite Hp, Hl, Hfin. auto.
Qed.

(** ** What the window shows *)

(** X7. The window shows the current item: in every state of a session that
    started on a window at rest (no signal queued, no loader thread running)
    and in which items remain, whatever the loader threads have done so
    far, the name label is the name of the current image and the image label
    is that image decoded and scaled (the null pixmap when it cannot be
    decoded); it makes no difference whether it came from the cache or was
    decoded on the spot. *)
Theorem current_item_is_shown (w : State) (folder : string)
    (listing : list string) (tr : list Event) (name : string) :
  folder <> "" -> events w = [] -> running_loaders w = [] ->
  session_trace tr ->
  let s := run tr (load_folder folder listing w) in
  recognized listing !! Z.to_nat (current_index s) = Some name ->
  (current_index s < len (recognized listing))%Z ->
  image_label (ui s) = Some (scaled (QPixmap folder name))
  /\ name_label (ui s) = name.
Proof.
  intros Hf Hev Hrun Htr. cbv zeta. intros Hn Hlt.
  assert (Hsome : recognized listing <> []).
  { intros E. rewrite E in Hn. discriminate. }
  now apply (loaded_shown w folder listing Hf Hsome Hev Hrun tr name).
Qed.

(** ** Loading another folder *)

Lemma events_cancel_and_join s :
  events s `prefix_of` events (cancel_and_join s).
Proof.
  unfold cancel_and_join, loader_wait.
  destruct (loader s) as [j|]; [|reflexivity].
  destruct (loader_isRunning j s); [|reflexivity]. proj.
  destruct (alter stop j (heap s) !! j) as [l|]; [|reflexivity].
  destruct (wait l) as [l' es]. proj. now apply prefix_app_r.
Qed.

(** X8. [load_folder] on a folder with images starts over, from whatever
    state: the cursor is 0, the label map and the cache are empty, a new
    loader from 0 is the current one, and nothing is written.  What it does
    not do is empty the queue: the signals already queued stay, in front of
    any new one, and the first of them is put into the new cache by the next
    delivery. *)
Theorem reload_keeps_queue (s : State) (folder : string)
    (listing : list string) :
  folder <> "" -> recognized listing <> [] ->
  let s' := load_folder folder listing s in
  images s' = recognized listing /\ image_folder s' = folder
  /\ current_index s' = 0%Z /\ results s' = []
  /\ cache s' = ∅ /\ loaded_up_to s' = 20%Z
  /\ files s' = files s
  /\ current_loader s' =
     Some {| ld_images := recognized listing; ld_folder := folder;
             start_index := 0; running := true; thread := AtLoop 0 |}
  /\ events s `prefix_of` events s'
  /\ (forall i p q, events s = (i, p) :: q ->
        cache (step ImageReady s') !! i = Some p).
Proof.
  intros Hf Hsome. cbv zeta. unfold load_folder.
  rewrite (eqb_chosen folder Hf).
  destruct (recognized listing) as [|x r] eqn:E; [contradiction|].
  set (s1 := on_ui (w_buttons true) _).
  set (S1 := start_preload 0 s1).
  assert (A1 : images S1 = x :: r) by (unfold S1; frame).
  assert (A2 : current_index S1 = 0%Z) by (unfold S1; frame).
  assert (A3 : loaded_up_to S1 = 20%Z) by reflexivity.
  assert (A4 : cache S1 = ∅) by (unfold S1; frame).
  assert (A5 : image_folder S1 = folder) by (unfold S1; frame).
  assert (A6 : events s `prefix_of` events S1).
  { change (events S1) with (events (cancel_and_join s1)).
    apply (events_cancel_and_join s1). }
  assert (H : (0 <= current_index S1 < len (images S1))%Z).
  { rewrite A1, A2. unfold len. simpl. lia. }
  destruct (show_current_image_policy S1 H) as [B1 B2].
  rewrite A3, A2 in B1, B2. change (20 - 10 <=? 0)%Z with false in B1, B2.
  assert (B3 : cache (show_current_image S1) = ∅).
  { apply map_eq. intros k. rewrite lookup_empty.
    destruct (show_current_image_present S1 H) as (n & _ & ->).
    rewrite cleanup_cache_lookup.
    destruct (_ <? _)%Z; [reflexivity|].
    now rewrite cache_ensure_coverage, cache_present; proj; rewrite A4. }
  assert (B4 : events (show_current_image S1) = events S1).
  { destruct (show_current_image_present S1 H) as (n & _ & ->).
    change (events (cleanup_cache ?X)) with (events X).
    unfold ensure_coverage.
    assert (E1 : loaded_up_to (present n (update_progress (on_ui (w_name n) S1)))
                 = 20%Z) by (rewrite <- A3; frame).
    assert (E2 : current_index (present n (update_progress (on_ui (w_name n) S1)))
                 = 0%Z) by (rewrite <- A2; frame).
    rewrite E1, E2. change (20 - PREFETCH_COUNT / 2 <=? 0)%Z with false.
    cbv iota. frame. }
  rewrite images_show_current_image, current_index_show_current_image,
    results_show_current_image, files_show_current_image, A1, A2, B1, B2, B3,
    B4.
  assert (C1 : image_folder (show_current_image S1) = folder)
    by (rewrite <- A5; frame).
  assert (C2 : (len (x :: r) <=? 0)%Z = false)
    by (apply Z.leb_gt; unfold len; simpl; lia).
  rewrite C1, C2.
  split; [reflexivity|]. split; [reflexivity|]. split; [reflexivity|].
  split; [unfold S1; frame|]. split; [reflexivity|]. split; [reflexivity|].
  split; [unfold S1; frame|].
  split.
  { unfold S1. rewrite current_loader_start_preload. reflexivity. }
  split; [exact A6|].
  intros i p q Hq. destruct A6 as [extra A6]. rewrite Hq in A6.
  simpl step. rewrite B4, A6. cbn [app].
  rewrite cache_on_image_loaded. apply lookup_insert_eq.
Qed.

(** ** The loaders tile the sequence, and the cache stays small *)

Lemma covered_ext s s' :
  heap s' = heap s -> loader s' = loader s ->
  loaded_up_to s' = loaded_up_to s -> images s' = images s ->
  events s' = events s -> cache s' = cache s -> covered s -> covered s'.
Proof.
  unfold covered, tiled, keys_covered. now intros -> -> -> -> -> ->.
Qed.

Lemma covered_update s id l l' es :
  covered s -> heap s !! id = Some l ->
  start_index l' = start_index l -> ld_images l' = ld_images l ->
  thread_in_range l' ->
  (forall k p, (k, p) ∈ es -> (start_index l <= k < range_stop l)%Z) ->
  covered (set_events (events s ++ es) (set_heap (<[id := l']> (heap s)) s)).
Proof.
  intros [(HL & Hld & Hh) (He & Hc)] Hl Hs Hi Hr Hes.
  split; [split; [|split]|split]; proj.
  - unfold len. now rewrite length_insert.
  - now rewrite length_insert.
  - intros id' l''. rewrite list_lookup_insert_Some.
    intros [(-> & <- & _)|[_ H]]; [|now apply Hh].
    destruct (Hh id' l Hl) as (E1 & E2 & _). rewrite Hs, Hi. auto.
  - intros k p. rewrite elem_of_app. intros [H|H]; [now apply (He k p)|].
    destruct (Hh id l Hl) as (E1 & E2 & _). specialize (Hes k p H).
    apply lookup_lt_Some in Hl. unfold range_stop, len in *.
    rewrite E1, E2 in Hes. unfold PREFETCH_COUNT in *. lia.
  - exact Hc.
Qed.

Lemma covered_thread_step id s : covered s -> covered (thread_step id s).
Proof.
  intros H. unfold thread_step.
  destruct (heap s !! id) as [l|] eqn:E; [|exact H].
  destruct H as [Ht Hk]. pose proof Ht as (_ & _ & Hh).
  destruct (Hh id l E) as (_ & _ & Hr).
  pose proof (worker_step_in_range l Hr) as H1.
  pose proof (worker_step_emits_key l) as H2.
  pose proof (worker_step_start l) as H3.
  pose proof (worker_step_images l) as H4.
  destruct (worker_step l) as [l' es]. simpl in *.
  exact (covered_update s id l l' es (conj Ht Hk) E H3 H4 H1
           (fun k p => H2 k p Hr)).
Qed.

Lemma covered_wait id s : covered s -> covered (loader_wait id s).
Proof.
  intros H. unfold loader_wait.
  destruct (heap s !! id) as [l|] eqn:E; [|exact H].
  destruct H as [Ht Hk]. pose proof Ht as (_ & _ & Hh).
  destruct (Hh id l E) as (_ & _ & Hr).
  destruct (run_thread_in_range (steps_left l) l Hr) as [H1 H2].
  destruct (run_thread_images (steps_left l) l) as (H4 & _ & H3).
  fold (wait l) in H1, H2, H3, H4.
  destruct (wait l) as [l' es]. simpl in *.
  exact (covered_update s id l l' es (conj Ht Hk) E H3 H4 H1 H2).
Qed.

Lemma covered_stop id s : covered s -> covered (loader_stop id s).
Proof.
  intros [(HL & Hld & Hh) Hk]. split; [|exact Hk].
  split; [|split]; proj.
  - unfold len. now rewrite length_alter.
  - now rewrite length_alter.
  - intros id' l'. rewrite list_lookup_alter.
    destruct (decide (id = id')) as [->|_]; [|apply Hh].
    destruct (heap s !! id') as [l|] eqn:E; simpl; [|discriminate].
    intros [= <-]. exact (Hh id' l E).
Qed.

Lemma covered_cancel_and_join s : covered s -> covered (cancel_and_join s).
Proof.
  intros H. unfold cancel_and_join. destruct (loader s) as [id|]; [|exact H].
  destruct (loader_isRunning id s); [|exact H].
  now apply covered_wait, covered_stop.
Qed.

Lemma covered_spawn s : covered s -> covered (spawn (loaded_up_to s) s).
Proof.
  intros [(HL & Hld & Hh) (He & Hc)].
  split; [split; [|split]|split]; proj.
  - unfold len in *. rewrite length_app. simpl. unfold PREFETCH_COUNT in *. lia.
  - rewrite length_app. simpl. f_equal. lia.
  - intros id l. rewrite lookup_app_Some. intros [H|[Hge H]]; [now apply Hh|].
    apply lookup_lt_Some in H as Hlt. simpl in Hlt.
    assert (id = length (heap s)) by lia. subst id.
    rewrite Nat.sub_diag in H. injection H as <-.
    unfold thread_in_range, len in *. simpl. split; [lia|]. split; [reflexivity|lia].
  - intros k p H. destruct (He k p H). unfold PREFETCH_COUNT. lia.
  - intros k p H. destruct (Hc k p H). unfold PREFETCH_COUNT. lia.
Qed.

Lemma covered_ensure_coverage s : covered s -> covered (ensure_coverage s).
Proof.
  intros H. unfold ensure_coverage. destruct (_ <=? _)%Z; [|exact H].
  unfold start_preload. rewrite <- (loaded_up_to_cancel_and_join s).
  now apply covered_spawn, covered_cancel_and_join.
Qed.

Lemma covered_cleanup_cache s : covered s -> covered (cleanup_cache s).
Proof.
  intros [Ht (He & Hc)]. split; [exact Ht|]. split; [exact He|].
  intros k p. rewrite cleanup_cache_lookup.
  destruct (_ <? _)%Z; [discriminate|apply Hc].
Qed.

Lemma covered_show_current_image s :
  covered s -> covered (show_current_image s).
Proof.
  intros H. unfold show_current_image.
  destruct (len (images s) <=? current_index s)%Z.
  - apply (covered_ext (stop_current s)); try reflexivity.
    unfold stop_current. destruct (loader s); [|exact H].
    now apply covered_stop.
  - destruct (getitem (images s) (current_index s)) as [n|]; [|exact H].
    apply covered_cleanup_cache, covered_ensure_coverage.
    apply (covered_ext s); [..|exact H]; frame.
Qed.

Lemma covered_step e s :
  session_event e = true -> covered s -> covered (step e s).
Proof.
  destruct e as [f l|o| |id]; [discriminate| | |]; intros _ H; simpl.
  - unfold label_image. destruct (_ || _)%bool; [exact H|].
    destruct (getitem _ _); [|exact H].
    apply covered_show_current_image. now apply (covered_ext s).
  - destruct (events s) as [|[i p] q] eqn:E; [exact H|].
    destruct H as [Ht (He & Hc)].
    assert (E1 : heap (on_image_loaded i p (set_events q s)) = heap s) by frame.
    assert (E2 : loader (on_image_loaded i p (set_events q s)) = loader s)
      by frame.
    assert (E3 : loaded_up_to (on_image_loaded i p (set_events q s))
                 = loaded_up_to s) by frame.
    assert (E4 : images (on_image_loaded i p (set_events q s)) = images s)
      by frame.
    assert (E5 : events (on_image_loaded i p (set_events q s)) = q) by frame.
    unfold covered, tiled, keys_covered.
    rewrite E1, E2, E3, E4, E5, cache_on_image_loaded. proj.
    split; [exact Ht|]. split.
    + intros k p' Hin. apply (He k p'). rewrite E.
      now apply list_elem_of_further.
    + intros k p'. rewrite lookup_insert_Some.
      intros [[<- <-]|[_ Hk]]; [|now apply (Hc k p')].
      apply (He i p). rewrite E. apply list_elem_of_here.
  - now apply covered_thread_step.
Qed.

Lemma session_covered folder listing tr :
  folder <> "" -> recognized listing <> [] -> session_trace tr ->
  covered (run tr (session_start folder listing)).
Proof.
  intros Hf Hsome Htr. induction tr as [|e tr IH] using rev_ind.
  - destruct (recognized listing) as [|x r] eqn:E; [contradiction|].
    rewrite (session_start_nonempty folder listing x r Hf E).
    cbn [run foldl]. split; [split; [|split]|split]; proj.
    + reflexivity.
    + reflexivity.
    + intros id l H. destruct id; simpl in H; [|discriminate].
      injection H as <-. unfold thread_in_range. simpl. repeat split; lia.
    + intros k p H. inversion H.
    + intros k p. now rewrite lookup_empty.
  - apply session_trace_snoc in Htr as [Htr He]. rewrite run_snoc.
    now apply covered_step; [|apply IH].
Qed.

Lemma bounded_keys_length (ks : list Z) (a : Z) (n : nat) :
  NoDup ks -> (forall k, k ∈ ks -> (a <= k < a + Z.of_nat n)%Z) ->
  length ks <= n.
Proof.
  intros Hnd H.
  assert (Hsub : ks ⊆+ seqZ a (Z.of_nat n)).
  { apply NoDup_submseteq; [exact Hnd|].
    intros k Hk. apply elem_of_seqZ. specialize (H k Hk). lia. }
  apply submseteq_length in Hsub. rewrite length_seqZ in Hsub. lia.
Qed.

(** X9. The loaders tile the sequence: in every state of a session the
    [id]-th loader created starts at [20 * id], there are
    [loaded_up_to / 20] of them, and the window refers to the last one; so
    the ranges of two loaders never overlap and no index is skipped. *)
Theorem loaders_tile_sequence (folder : string) (listing : list string)
    (tr : list Event) (id : nat) (l : ImageLoader) :
  folder <> "" -> recognized listing <> [] -> session_trace tr ->
  let s := run tr (session_start folder listing) in
  heap s !! id = Some l ->
  loaded_up_to s = (20 * len (heap s))%Z
  /\ loader s = Some (length (heap s) - 1)
  /\ start_index l = (20 * Z.of_nat id)%Z
  /\ ld_images l = recognized listing
  /\ (forall k, k ∈ loader_range l <->
        (20 * Z.of_nat id <= k < 20 * Z.of_nat id + 20)%Z
        /\ (k < len (recognized listing))%Z).
Proof.
  intros Hf Hsome Htr. cbv zeta. intros Hl.
  destruct (session_covered folder listing tr Hf Hsome Htr)
    as [(HL & Hld & Hh) _].
  destruct (session_images folder listing Hf Hsome tr Htr) as [Himg _].
  destruct (Hh id l Hl) as (E1 & E2 & _). rewrite Himg in E2.
  split; [exact HL|]. split; [exact Hld|]. split; [exact E1|].
  split; [exact E2|].
  intros k. rewrite loader_range_spec. unfold range_stop.
  rewrite E1, E2. unfold PREFETCH_COUNT. lia.
Qed.

(** X10. The cache stays small: in every state of a session that started
    on a window at rest (no signal queued, no loader thread running) every
    cached index is an index of the sequence below [loaded_up_to], so the
    number shown as preloaded never exceeds the number of items from the
    cursor on; and right after a label that moves on to a further item every
    cached index lies from 5 below to less than 30 above the cursor, so the
    cache holds at most 35 pixmaps. *)
Theorem cache_stays_small (w : State) (folder : string)
    (listing : list string) (tr : list Event) (o : string) :
  folder <> "" -> recognized listing <> [] ->
  events w = [] -> running_loaders w = [] -> session_trace tr ->
  let s := run tr (load_folder folder listing w) in
  let s' := step (Label o) s in
  (forall k p, cache s !! k = Some p ->
     (0 <= k < loaded_up_to s)%Z /\ (k < len (recognized listing))%Z)
  /\ (count_at_or_after (cache s) (current_index s)
      <= len (recognized listing) - current_index s)%Z
  /\ ((current_index s + 1 < len (recognized listing))%Z ->
      (forall k p, cache s' !! k = Some p ->
         (current_index s' - 5 <= k < current_index s' + 30)%Z)
      /\ size (cache s') <= 35).
Proof.
  intros Hf Hsome Hev Hrun Htr. cbv zeta.
  assert (Hbound : forall tr', session_trace tr' -> forall k p,
            cache (run tr' (load_folder folder listing w)) !! k = Some p ->
            (0 <= k < loaded_up_to (run tr' (load_folder folder listing w)))%Z
            /\ (k < len (recognized listing))%Z).
  { intros tr' Htr' k p Hp.
    destruct (loaded_no_stale w folder listing Hf Hev Hrun tr' Htr')
      as (_ & _ & _ & Hc).
    destruct (loaded_images w folder listing Hf Hsome tr' Htr') as [Himg _].
    destruct (Hc k p Hp) as [Hd Hk]. rewrite Himg in Hd.
    split; [exact Hk|].
    exact (decoded_from_bound _ _ k p (proj1 Hk) Hd). }
  pose proof (Hbound tr Htr) as Hc.
  destruct (loaded_images w folder listing Hf Hsome tr Htr) as [Himg _].
  pose proof (loaded_index w folder listing Hf Hsome tr Htr) as Hidx.
  set (s := run tr (load_folder folder listing w)) in *.
  assert (H0 : (0 <= current_index s <= len (recognized listing))%Z)
    by (unfold len in *; lia).
  split; [exact Hc|]. split.
  - unfold count_at_or_after, len at 1.
    assert (Hb : length (List.filter (fun k => (current_index s <=? k)%Z)
                           (keys (cache s)))
                 <= Z.to_nat (len (recognized listing) - current_index s)).
    { apply (bounded_keys_length _ (current_index s)).
      - apply NoDup_ListNoDup, List.NoDup_filter, NoDup_ListNoDup, keys_NoDup.
      - intros k Hk. apply elem_of_filter_bool in Hk as [Hk Hle].
        apply elem_of_keys in Hk as [p Hp]. apply Z.leb_le in Hle.
        destruct (Hc k p Hp). lia. }
    lia.
  - intros Hlt.
    assert (Htr' : session_trace (tr ++ [Label o])).
    { unfold session_trace. apply Forall_app. split; [exact Htr|].
      now apply Forall_singleton. }
    pose proof (Hbound _ Htr') as Hc'.
    destruct (loaded_supervisor w folder listing Hf Hsome _ Htr') as (HL & _).
    pose proof (loaded_index w folder listing Hf Hsome _ Htr') as Hidx'.
    rewrite run_snoc in Hc', HL, Hidx'. fold s in Hc', HL, Hidx'.
    rewrite labels_snoc, len_app in Hidx'.
    assert (Hc1 : current_index (step (Label o) s) = (current_index s + 1)%Z)
      by (unfold len in *; lia).
    rewrite Hc1 in *. rewrite Z.min_l in HL by lia.
    destruct (coverage_bounds (current_index s + 1)) as [Hcov _]; [lia|].
    assert (Hwin : forall k p, cache (step (Label o) s) !! k = Some p ->
              (current_index s + 1 - 5 <= k < current_index s + 1 + 30)%Z).
    { intros k p Hp. destruct (Hc' k p Hp) as [Hk _]. split; [|lia].
      simpl step in Hp.
      destruct (label_image_advance o s) as (x & _ & E).
      { rewrite Himg. lia. }
      rewrite E in Hp.
      set (s1 := set_current_index _ _) in *.
      assert (H1 : (0 <= current_index s1 < len (images s1))%Z).
      { change (images s1) with (images s).
        change (current_index s1) with (current_index s + 1)%Z.
        rewrite Himg. lia. }
      destruct (show_current_image_present s1 H1) as (n & _ & E').
      rewrite E', cleanup_cache_lookup, current_index_ensure_coverage,
        current_index_present in Hp.
      change (current_index (update_progress ?X)) with (current_index s + 1)%Z
        in Hp.
      destruct (Z.ltb_spec k (current_index s + 1 - 5)); [discriminate|lia]. }
    split; [exact Hwin|].
    rewrite <- length_map_to_list.
    replace (length (map_to_list (cache (step (Label o) s))))
      with (length (keys (cache (step (Label o) s))))
      by (unfold keys; now rewrite length_fmap).
    apply (bounded_keys_length _ (current_index s + 1 - 5)%Z 35);
      [apply keys_NoDup|].
    intros k Hk. apply elem_of_keys in Hk as [p Hp].
    specialize (Hwin k p Hp). lia.
Qed.

(** ** What the operator can do *)

Lemma results_label_image o s :
  results (label_image o s) = results s
  \/ exists img_name, results (label_image o s) = dict_set img_name o (results s).
Proof.
  unfold label_image. destruct (_ || _)%bool; [now left|].
  destruct (getitem _ _) as [n|]; [|now left].
  right. exists n. now rewrite results_show_current_image.
Qed.

Lemma results_load_folder folder listing s :
  results (load_folder folder listing s) = results s
  \/ results (load_folder folder listing s) = [].
Proof.
  unfold load_folder. destruct (String.eqb folder ""); [now left|].
  destruct (recognized listing); [now left|].
  right. rewrite results_show_current_image. frame.
Qed.

Lemma dict_set_values (P : string -> Prop) k v d :
  P v -> Forall (fun kv => P kv.2) d ->
  Forall (fun kv => P kv.2) (dict_set k v d).
Proof.
  intros Hv. induction d as [|[k' v'] d IH]; simpl; intros H.
  - now repeat constructor.
  - inversion H; subst. destruct (String.eqb k' k); constructor; auto.
Qed.

Lemma act_is_step a s :
  exists tr, act a s = run tr s
    /\ Forall (fun o => o = "portrait" \/ o = "landscape") (labels tr).
Proof.
  destruct a as [f l|text| | | |id]; simpl.
  - exists [LoadFolder f l]. split; [reflexivity|constructor].
  - unfold keyPressEvent.
    destruct (String.eqb (lower text) "p");
      [exists [Label "portrait"]; split; [reflexivity|simpl; constructor; [auto|constructor]]|].
    destruct (String.eqb (lower text) "l");
      [exists [Label "landscape"]; split;
         [reflexivity|simpl; constructor; [auto|constructor]]|].
    exists (@nil Event). split; [reflexivity|constructor].
  - unfold portrait_clicked. destruct (portrait_btn (ui s)).
    + exists [Label "portrait"]. split; [reflexivity|simpl; constructor; [auto|constructor]].
    + exists (@nil Event). split; [reflexivity|constructor].
  - unfold landscape_clicked. destruct (landscape_btn (ui s)).
    + exists [Label "landscape"]. split; [reflexivity|simpl; constructor; [auto|constructor]].
    + exists (@nil Event). split; [reflexivity|constructor].
  - exists [ImageReady]. split; [reflexivity|constructor].
  - exists [LoaderStep id]. split; [reflexivity|constructor].
Qed.

Lemma run_app tr1 tr2 s : run (tr1 ++ tr2) s = run tr2 (run tr1 s).
Proof. unfold run. apply foldl_app. Qed.

Lemma labels_app tr1 tr2 : labels (tr1 ++ tr2) = labels tr1 ++ labels tr2.
Proof.
  induction tr1 as [|e tr1 IH]; [reflexivity|].
  destruct e; simpl; now rewrite IH.
Qed.

Lemma perform_is_run acts s :
  exists tr, perform acts s = run tr s
    /\ Forall (fun o => o = "portrait" \/ o = "landscape") (labels tr).
Proof.
  induction acts as [|a acts IH] using rev_ind.
  - exists (@nil Event). split; [reflexivity|constructor].
  - destruct IH as (tr & E & Hl).
    unfold perform in *. rewrite foldl_app. simpl. rewrite E.
    destruct (act_is_step a (run tr s)) as (tr' & E' & Hl').
    exists (tr ++ tr'). rewrite run_app, labels_app. split; [exact E'|].
    now apply Forall_app.
Qed.

Lemma run_values tr : forall s,
  Forall (fun o => o = "portrait" \/ o = "landscape") (labels tr) ->
  Forall (fun kv => kv.2 = "portrait" \/ kv.2 = "landscape") (results s) ->
  Forall (fun kv => kv.2 = "portrait" \/ kv.2 = "landscape")
    (results (run tr s)).
Proof.
  induction tr as [|e tr IH]; intros s Hl Hs; [exact Hs|].
  change (run (e :: tr) s) with (run tr (step e s)).
  destruct e as [f l|o| |id]; simpl in Hl.
  - apply IH; [exact Hl|]. simpl.
    destruct (results_load_folder f l s) as [->| ->]; [exact Hs|constructor].
  - inversion Hl; subst. apply IH; [assumption|]. simpl.
    destruct (results_label_image o s) as [->|[n ->]]; [exact Hs|].
    now apply (dict_set_values (fun v => v = "portrait" \/ v = "landscape")).
  - apply IH; [exact Hl|].
    now destruct (current_index_background ImageReady s) as (_ & -> & _);
      [auto|].
  - apply IH; [exact Hl|].
    now destruct (current_index_background (LoaderStep id) s)
      as (_ & -> & _); [eauto|].
Qed.

(** X11. What the operator can do: every sequence of folder choices, key
    presses, button clicks, signal deliveries and loader steps is a trace of
    the transition system whose labels are ["portrait"] and ["landscape"]
    only, so the label map never holds another value; the keys P and L work
    in either case, and any other key leaves the window as it is. *)
Theorem operator_actions (acts : list Action) (text : string) (s : State) :
  (exists tr, perform acts init = run tr init
     /\ Forall (fun o => o = "portrait" \/ o = "landscape") (labels tr))
  /\ Forall (fun kv => kv.2 = "portrait" \/ kv.2 = "landscape")
       (results (perform acts init))
  /\ length (running_loaders (perform acts init)) <= 1
  /\ (lower text = "p" -> keyPressEvent text s = label_image "portrait" s)
  /\ (lower text = "l" -> keyPressEvent text s = label_image "landscape" s)
  /\ (lower text <> "p" -> lower text <> "l" -> keyPressEvent text s = s).
Proof.
  destruct (perform_is_run acts init) as (tr & E & Hl).
  split; [eauto|]. rewrite E. split; [|split].
  - apply run_values; [exact Hl|constructor].
  - apply only_current_runs_at_most_one, only_current_runs_run,
      only_current_runs_init.
  - unfold keyPressEvent. split; [|split].
    + now intros ->.
    + intros ->. reflexivity.
    + intros H1 H2.
      destruct (String.eqb_spec (lower text) "p"); [contradiction|].
      now destruct (String.eqb_spec (lower text) "l").
Qed.

(** ** Which files are images *)

Lemma substring_whole (s : string) : substring 0 (String.length s) s = s.
Proof. induction s as [|c s IH]; simpl; [reflexivity|]. now rewrite IH. Qed.

Lemma substring_prefix_suffix (p : string) : forall suffix,
  substring (String.length p) (String.length suffix) (p +:+ suffix) = suffix.
Proof.
  induction p as [|c p IH]; intros suffix; simpl.
  - apply substring_whole.
  - apply IH.
Qed.

Lemma substring_split (s : string) : forall k,
  k <= String.length s ->
  s = substring 0 k s +:+ substring k (String.length s - k) s.
Proof.
  induction s as [|c s IH]; intros k Hk; simpl in *.
  - now destruct k.
  - destruct k as [|k]; simpl.
    + now rewrite substring_whole.
    + change (String c s = String c (substring 0 k s
                 +:+ substring k (String.length s - k) s)).
      f_equal. apply IH. lia.
Qed.

Lemma length_append (a b : string) :
  String.length (a +:+ b) = String.length a + String.length b.
Proof. induction a as [|c a IH]; simpl; [reflexivity|]. now rewrite IH. Qed.

Lemma endswith1_spec s suffix :
  endswith1 s suffix = true <-> exists p, s = p +:+ suffix.
Proof.
  unfold endswith1. rewrite andb_true_iff, Nat.leb_le, String.eqb_eq. split.
  - intros [Hle Hs].
    exists (substring 0 (String.length s - String.length suffix) s).
    pose proof (substring_split s (String.length s - String.length suffix))
      as E.
    replace (String.length s - (String.length s - String.length suffix))
      with (String.length suffix) in E by lia.
    rewrite Hs in E. apply E. lia.
  - intros [p ->]. rewrite length_append. split; [lia|].
    replace (String.length p + String.length suffix - String.length suffix)
      with (String.length p) by lia.
    apply substring_prefix_suffix.
Qed.

Lemma recognized_sublist listing : recognized listing `sublist_of` listing.
Proof.
  unfold recognized.
  induction listing as [|x l IH]; cbn [List.filter]; [constructor|].
  destruct (endswith (lower x) extensions);
    [now apply sublist_skip|now apply sublist_cons].
Qed.

(** X12. Which files [load_folder] takes: exactly the names of the listing
    whose lower-cased form ends in one of the seven extensions, in the order
    of the listing; filtering a second time changes nothing, and the images
    of a loaded folder are never more than the listing has. *)
Theorem recognized_files (listing : list string) (x : string) :
  (x ∈ recognized listing <->
   x ∈ listing /\ exists ext p, ext ∈ extensions /\ lower x = p +:+ ext)
  /\ recognized listing `sublist_of` listing
  /\ recognized (recognized listing) = recognized listing
  /\ length (recognized listing) <= length listing.
Proof.
  assert (Hspec : forall y, endswith (lower y) extensions = true <->
                    exists ext p, ext ∈ extensions /\ lower y = p +:+ ext).
  { intros y. unfold endswith. rewrite existsb_exists. split.
    - intros (ext & Hin & He). apply endswith1_spec in He as [p Hp].
      exists ext, p. split; [now apply list_elem_of_In|exact Hp].
    - intros (ext & p & Hin & Hp). exists ext.
      split; [now apply list_elem_of_In|]. apply endswith1_spec. eauto. }
  split; [|split; [|split]].
  - unfold recognized. rewrite elem_of_filter_bool, Hspec. reflexivity.
  - apply recognized_sublist.
  - unfold recognized.
    induction listing as [|y l IH]; cbn [List.filter]; [reflexivity|].
    destruct (endswith (lower y) extensions) eqn:E; cbn [List.filter];
      [rewrite E; f_equal|]; exact IH.
  - apply sublist_length, recognized_sublist.
Qed.

(** ** The labels as the pipeline reads them *)

(** X13. Every label the window can record is read back by the pipeline's
    [determine_orientation] as the orientation of that very value; this
    holds for these two strings only, any other being read as landscape. *)
Theorem labels_read_back (acts : list Action) (v : string) :
  Forall (fun kv =>
            Pipeline.Orientation_value
              (Pipeline.determine_orientation (Pipeline.JString kv.2)) = kv.2)
    (results (perform acts init))
  /\ (Pipeline.Orientation_value
        (Pipeline.determine_orientation (Pipeline.JString v)) = v
      <-> v = "portrait" \/ v = "landscape")
  /\ (v <> "portrait" ->
      Pipeline.determine_orientation (Pipeline.JString v)
      = Pipeline.LANDSCAPE).
Proof.
  assert (R : forall u, Pipeline.Orientation_value
                (Pipeline.determine_orientation (Pipeline.JString u)) = u
              <-> u = "portrait" \/ u = "landscape").
  { intros u. unfold Pipeline.determine_orientation.
    destruct (String.eqb_spec u "portrait") as [->|N]; simpl.
    - split; auto.
    - split; [auto|]. intros [E|E]; [contradiction|now symmetry]. }
  split; [|split].
  - destruct (perform_is_run acts init) as (tr & E & Hl). rewrite E.
    eapply Forall_impl; [apply run_values; [exact Hl|constructor]|].
    intros kv H. now apply R.
  - apply R.
  - intros N. unfold Pipeline.determine_orientation.
    now destruct (String.eqb_spec v "portrait").
Qed.
End Labeler.

(** * The claims on a sample session

    Twenty images [img0.png] to [img19.png] in a folder [dir]; [img3.png]
    cannot be decoded. *)

Local Abbreviation Run :=
  (run string sample_QPixmap sample_scale sample_json_string sample_root).
Local Abbreviation Start :=
  (session_start string sample_QPixmap sample_scale sample_json_string
     sample_root).
Local Abbreviation Shown :=
  (show_current_image string sample_QPixmap sample_scale sample_json_string
     sample_root).
Local Abbreviation Step :=
  (step string sample_QPixmap sample_scale sample_json_string sample_root).
Local Abbreviation Reload :=
  (load_folder string sample_QPixmap sample_scale sample_json_string
     sample_root).

(** A window that was used before and is at rest: one image of a folder
    [old] was labelled, its loader has returned and its signal was
    delivered. *)
Local Abbreviation Used :=
  (Run [LoadFolder "old" (sample_listing 1); LoaderStep 0; LoaderStep 0;
        LoaderStep 0; ImageReady; Label "portrait"] (init string)).

Ltac evaluate := vm_compute; repeat split; solve [discriminate | reflexivity].
Ltac decided := apply (bool_decide_unpack _); vm_compute; exact I.

Lemma sample_session_trace tr :
  forallb session_event tr = true -> session_trace tr.
Proof.
  unfold session_trace. rewrite forallb_forall, Forall_forall.
  intros H e He. apply H. now apply list_elem_of_In.
Qed.

Lemma cache_window_witness :
  let s := set_current_index string 7
             (Run [LoaderStep 0; LoaderStep 0; ImageReady;
                   LoaderStep 0; LoaderStep 0; ImageReady;
                   LoaderStep 0; LoaderStep 0; ImageReady]
                (Start "dir" (sample_listing 20))) in
  (0 <= current_index string s < len (images string s))%Z
  /\ cache string s !! 1%Z = Some (Image "780x430:dir/img1.png")
  /\ cache string (cleanup_cache string s) !! 1%Z = None
  /\ cache string (cleanup_cache string s) !! 2%Z =
     Some (Image "780x430:dir/img2.png")
  /\ (is_Some (cache string (Shown s) !! 2%Z) ->
      (current_index string (Shown s) - 5 <= 2)%Z).
Proof.
  intros s.
  assert (H : (0 <= current_index string s < len (images string s))%Z)
    by evaluate.
  split; [exact H|]. split; [reflexivity|].
  destruct (cache_window string sample_QPixmap sample_scale sample_json_string
              sample_root s 1%Z "portrait") as (E1 & _).
  destruct (cache_window string sample_QPixmap sample_scale sample_json_string
              sample_root s 2%Z "portrait") as (E2 & _ & _ & E3 & _).
  split; [rewrite E1; reflexivity|]. split; [rewrite E2; reflexivity|].
  exact (E3 H).
Defined.

Lemma single_loader_witness :
  let tr := [LoadFolder "dir" (sample_listing 20); LoaderStep 0] in
  let l := {| ld_images := sample_listing 20; ld_folder := "dir";
              start_index := 0; running := true; thread := Decoding 0 |} in
  loader string (Run tr (init string)) = Some 0
  /\ heap string (Run tr (init string)) !! 0 = Some l
  /\ isRunning l = true
  /\ length (running_loaders string (Run tr (init string))) <= 1
  /\ running_loaders string
       (cancel_and_join string sample_QPixmap sample_scale
          (Run tr (init string))) = []
  /\ (exists l', heap string
                   (cancel_and_join string sample_QPixmap sample_scale
                      (Run tr (init string))) !! 0 = Some l'
        /\ running l' = false /\ isRunning l' = false)
  /\ length (running_loaders string
               (start_preload string sample_QPixmap sample_scale 20
                  (Run tr (init string)))) <= 1.
Proof.
  intros tr l.
  assert (H1 : loader string (Run tr (init string)) = Some 0) by reflexivity.
  assert (H2 : heap string (Run tr (init string)) !! 0 = Some l)
    by (vm_compute; reflexivity).
  assert (H3 : isRunning l = true) by reflexivity.
  destruct (single_loader string sample_QPixmap sample_scale
              sample_json_string sample_root tr 20%Z)
    as (A & _ & B & C & D).
  pose proof (D 0 l H1 H2 H3) as E.
  auto 10.
Defined.

Lemma restart_policy_witness :
  let tr := repeat (Label "portrait") 9 in
  let before := Run tr (Start "dir" (sample_listing 20)) in
  let after := Step (Label "landscape") before in
  "dir" <> ""
  /\ (10 < len (recognized (sample_listing 20)))%Z
  /\ session_trace tr /\ length (labels tr) = 9
  /\ (0 <= current_index string before < len (images string before))%Z
  /\ loaded_up_to string before = 20%Z
  /\ current_index string after = 10%Z
  /\ loaded_up_to string after = 40%Z
  /\ current_loader string after =
     Some {| ld_images := recognized (sample_listing 20); ld_folder := "dir";
             start_index := 20; running := true; thread := AtLoop 20 |}
  /\ length (heap string after) = length (heap string before) + 1
  /\ loaded_up_to string (Shown before) = 20%Z.
Proof.
  intros tr before after.
  assert (H1 : "dir" <> "") by discriminate.
  assert (H2 : (10 < len (recognized (sample_listing 20)))%Z) by evaluate.
  assert (H3 : (0 <= current_index string before
                < len (images string before))%Z) by evaluate.
  assert (H4 : session_trace tr) by (apply sample_session_trace; reflexivity).
  assert (H5 : length (labels tr) = 9) by reflexivity.
  destruct (restart_policy string sample_QPixmap sample_scale
              sample_json_string sample_root) as (P & Q).
  destruct (Q "dir" (sample_listing 20) tr "landscape" H1 H2 H4 H5)
    as (A & _ & B & C & D & E & _).
  pose proof (proj1 (P before H3)) as F. cbv zeta in F.
  split; [exact H1|]. split; [exact H2|]. split; [exact H4|].
  split; [exact H5|]. split; [exact H3|]. split; [exact A|].
  split; [exact B|]. split; [exact C|]. split; [exact D|].
  split; [exact E|]. rewrite F. vm_compute. reflexivity.
Defined.

Lemma cursor_monotone_witness :
  let s := Start "dir" (sample_listing 20) in
  let tr := [Label "portrait"; LoaderStep 0; Label "landscape"; ImageReady] in
  session_trace tr
  /\ (0 <= current_index string s < len (images string s))%Z
  /\ (current_index string s <= current_index string (Run tr s))%Z
  /\ current_index string
       (label_image string sample_QPixmap sample_scale sample_json_string
          sample_root "portrait" s) = (current_index string s + 1)%Z.
Proof.
  intros s tr.
  assert (H1 : session_trace tr) by (apply sample_session_trace; reflexivity).
  assert (H2 : (0 <= current_index string s < len (images string s))%Z)
    by evaluate.
  destruct (cursor_monotone string sample_QPixmap sample_scale
              sample_json_string sample_root s "portrait")
    as (A & _ & B & _).
  split; [exact H1|]. split; [exact H2|]. split; [exact (B tr H1)|exact (A H2)].
Defined.

Lemma labels_complete_witness :
  let tr := [Label "portrait"; LoaderStep 0; Label "landscape"] in
  let s := Run tr (Start "dir" (sample_listing 2)) in
  "dir" <> "" /\ NoDup (sample_listing 2) /\ session_trace tr
  /\ len (labels tr) = len (recognized (sample_listing 2))
  /\ results string s = [("img0.png", "portrait"); ("img1.png", "landscape")]
  /\ current_index string s = 2%Z
  /\ forall l, current_loader string s = Some l -> running l = false.
Proof.
  intros tr s.
  assert (H1 : "dir" <> "") by discriminate.
  assert (H2 : NoDup (sample_listing 2)) by decided.
  assert (H3 : session_trace tr) by (apply sample_session_trace; reflexivity).
  assert (H4 : len (labels tr) = len (recognized (sample_listing 2)))
    by reflexivity.
  destruct (labels_complete string sample_QPixmap sample_scale sample_json_string
              sample_root "dir" (sample_listing 2) tr H1 H2 H3 H4)
    as (A & _ & _ & B & C).
  repeat split; try assumption. intros l Hl. now apply C.
Defined.

(** C5, as the claim states it, fails: after the only image of a folder is
    labelled, the loader that [finish] has stopped but not waited for is
    still running. *)
Lemma finished_loader_still_running :
  let s := Run [Label "portrait"] (Start "dir" (sample_listing 1)) in
  len (results string s) = 1%Z
  /\ current_index string s = len (images string s)
  /\ running_loaders string s = [0]
  /\ ~ (running_loaders string s = []).
Proof. vm_compute. repeat split; discriminate. Qed.





Lemma output_serialization_witness :
  let tr := [Label "portrait"; LoaderStep 0; Label "portrait"] in
  let s := Run tr (Start "dir" (sample_listing 2)) in
  "dir" <> "" /\ recognized (sample_listing 2) <> []
  /\ NoDup (sample_listing 2) /\ session_trace tr
  /\ Forall (fun o => o = "portrait" \/ o = "landscape") (labels tr)
  /\ (len (recognized (sample_listing 2)) <= len (labels tr))%Z
  /\ Forall (fun o => o = "portrait") (labels tr)
  /\ results string s =
     map (fun n => (n, "portrait")) (recognized (sample_listing 2))
  /\ files string s =
     [("/repo/data/orientations.json",
       "{" +:+ newline +:+
       "  " +:+ quote +:+ "img0.png" +:+ quote +:+ ": "
            +:+ quote +:+ "portrait" +:+ quote +:+ "," +:+ newline +:+
       "  " +:+ quote +:+ "img1.png" +:+ quote +:+ ": "
            +:+ quote +:+ "portrait" +:+ quote +:+ newline +:+ "}")].
Proof.
  intros tr s.
  assert (H1 : "dir" <> "") by discriminate.
  assert (H2 : recognized (sample_listing 2) <> []) by discriminate.
  assert (H3 : NoDup (sample_listing 2)) by decided.
  assert (H4 : session_trace tr) by (apply sample_session_trace; reflexivity).
  assert (H5 : Forall (fun o => o = "portrait" \/ o = "landscape") (labels tr))
    by (repeat constructor).
  assert (H6 : (len (recognized (sample_listing 2)) <= len (labels tr))%Z)
    by evaluate.
  assert (H7 : Forall (fun o => o = "portrait") (labels tr))
    by (repeat constructor).
  destruct (output_serialization string sample_QPixmap sample_scale
              sample_json_string sample_root "dir" (sample_listing 2) tr
              H1 H2 H3 H4 H5) as (_ & A).
  destruct (A H6) as (B & _ & _ & _ & C).
  split; [exact H1|]. split; [exact H2|]. split; [exact H3|].
  split; [exact H4|]. split; [exact H5|]. split; [exact H6|].
  split; [exact H7|]. split; [exact (C H7)|].
  unfold s. rewrite B, (C H7). reflexivity.
Defined.


Lemma advance_noop_witness :
  let s := Run [Label "portrait"; Label "landscape"]
             (Start "dir" (sample_listing 2)) in
  (images string s = [] \/ (len (images string s) <= current_index string s)%Z)
  /\ label_image string sample_QPixmap sample_scale sample_json_string
       sample_root "portrait" s = s
  /\ Step (Label "portrait") s = s.
Proof.
  intros s.
  assert (H : images string s = []
              \/ (len (images string s) <= current_index string s)%Z)
    by (right; evaluate).
  destruct (advance_noop string sample_QPixmap sample_scale sample_json_string
              sample_root s "portrait" H) as (A & B & _).
  auto.
Defined.

(** * The further properties on sample sessions *)

Lemma loader_runs_whole_range_witness :
  let l := {| ld_images := sample_listing 5; ld_folder := "dir";
              start_index := 0; running := true; thread := AtLoop 0 |} in
  thread l = AtLoop (start_index l) /\ running l = true
  /\ (0 <= start_index l)%Z
  /\ (wait string sample_QPixmap sample_scale l).2.*1 = [0; 1; 2; 4]%Z
  /\ (wait string sample_QPixmap sample_scale l).2.*1
       `sublist_of` loader_range l.
Proof.
  intros l.
  assert (H1 : thread l = AtLoop (start_index l)) by reflexivity.
  assert (H2 : running l = true) by reflexivity.
  assert (H3 : (0 <= start_index l)%Z) by (vm_compute; discriminate).
  destruct (loader_runs_whole_range string sample_QPixmap sample_scale l
              H1 H2 H3) as (A & B & _).
  split; [exact H1|]. split; [exact H2|]. split; [exact H3|].
  split; [rewrite A; vm_compute; reflexivity|exact B].
Defined.

Lemma prefetch_stays_ahead_witness :
  let tr := repeat (Label "portrait") 12 in
  let s := Run tr (Start "dir" (sample_listing 50)) in
  "dir" <> "" /\ recognized (sample_listing 50) <> [] /\ session_trace tr
  /\ (current_index string s < len (recognized (sample_listing 50)))%Z
  /\ loaded_up_to string s = 40%Z
  /\ (current_index string s + 10 < loaded_up_to string s
      <= current_index string s + 30)%Z.
Proof.
  intros tr s.
  assert (H1 : "dir" <> "") by discriminate.
  assert (H2 : recognized (sample_listing 50) <> []) by (vm_compute; discriminate).
  assert (H3 : session_trace tr) by (apply sample_session_trace; reflexivity).
  assert (H4 : (current_index string s
                < len (recognized (sample_listing 50)))%Z) by evaluate.
  destruct (prefetch_stays_ahead string sample_QPixmap sample_scale
              sample_json_string sample_root "dir" (sample_listing 50) tr
              H1 H2 H3) as (A & _ & B).
  split; [exact H1|]. split; [exact H2|]. split; [exact H3|].
  split; [exact H4|]. split; [|exact (B H4)].
  unfold s. rewrite A. vm_compute. reflexivity.
Defined.

Lemma labels_kept_in_order_witness :
  let tr := [Label "portrait"; LoaderStep 0; Label "landscape"] in
  let s := Run tr (Start "dir" (sample_listing 20)) in
  "dir" <> "" /\ recognized (sample_listing 20) <> []
  /\ NoDup (sample_listing 20) /\ session_trace tr
  /\ results string s = combine (recognized (sample_listing 20)) (labels tr)
  /\ len (results string s) = current_index string s.
Proof.
  intros tr s.
  assert (H1 : "dir" <> "") by discriminate.
  assert (H2 : recognized (sample_listing 20) <> [])
    by (vm_compute; discriminate).
  assert (H3 : NoDup (sample_listing 20)) by decided.
  assert (H4 : session_trace tr) by (apply sample_session_trace; reflexivity).
  destruct (labels_kept_in_order string sample_QPixmap sample_scale
              sample_json_string sample_root "dir" (sample_listing 20) tr
              H1 H2 H3 H4) as (A & _ & _ & B).
  split; [exact H1|]. split; [exact H2|]. split; [exact H3|].
  split; [exact H4|]. split; [exact A|exact B].
Defined.

Lemma buttons_follow_session_witness :
  let tr := [Label "portrait"; Label "landscape"] in
  let s := Run tr (Start "dir" (sample_listing 2)) in
  "dir" <> "" /\ recognized (sample_listing 2) <> [] /\ session_trace tr
  /\ portrait_btn string (ui string s) = false
  /\ portrait_clicked string sample_QPixmap sample_scale sample_json_string
       sample_root s = s.
Proof.
  intros tr s.
  assert (H1 : "dir" <> "") by discriminate.
  assert (H2 : recognized (sample_listing 2) <> [])
    by (vm_compute; discriminate).
  assert (H3 : session_trace tr) by (apply sample_session_trace; reflexivity).
  destruct (buttons_follow_session string sample_QPixmap sample_scale
              sample_json_string sample_root "dir" (sample_listing 2) tr
              H1 H2 H3) as (A & _ & B).
  split; [exact H1|]. split; [exact H2|]. split; [exact H3|].
  assert (F : (len (recognized (sample_listing 2)) <=? len (labels tr))%Z
               = true) by (vm_compute; reflexivity).
  split; [unfold s; rewrite A; vm_compute; reflexivity|].
  exact (proj1 (B F)).
Defined.

Lemma current_item_is_shown_witness :
  let tr := [LoaderStep 1; LoaderStep 1; ImageReady; Label "portrait"] in
  let s := Run tr (Reload "dir" (sample_listing 20) Used) in
  "dir" <> "" /\ events string Used = [] /\ running_loaders string Used = []
  /\ session_trace tr
  /\ recognized (sample_listing 20) !! Z.to_nat (current_index string s)
     = Some "img1.png"
  /\ (current_index string s < len (recognized (sample_listing 20)))%Z
  /\ image_label string (ui string s)
     = Some (scaled string sample_scale (sample_QPixmap "dir" "img1.png"))
  /\ name_label string (ui string s) = "img1.png".
Proof.
  intros tr s.
  assert (H1 : "dir" <> "") by discriminate.
  assert (He : events string Used = []) by (vm_compute; reflexivity).
  assert (Hr : running_loaders string Used = []) by (vm_compute; reflexivity).
  assert (H2 : session_trace tr) by (apply sample_session_trace; reflexivity).
  assert (H3 : recognized (sample_listing 20)
                 !! Z.to_nat (current_index string s) = Some "img1.png")
    by (vm_compute; reflexivity).
  assert (H4 : (current_index string s
                < len (recognized (sample_listing 20)))%Z) by evaluate.
  destruct (current_item_is_shown string sample_QPixmap sample_scale
              sample_json_string sample_root Used "dir" (sample_listing 20) tr
              "img1.png" H1 He Hr H2 H3 H4) as (A & B).
  split; [exact H1|]. split; [exact He|]. split; [exact Hr|].
  split; [exact H2|]. split; [exact H3|].
  split; [exact H4|]. split; [exact A|exact B].
Defined.

Lemma reload_keeps_queue_witness :
  let s := Run [LoaderStep 0; LoaderStep 0] (Start "dir" (sample_listing 20)) in
  let s' := load_folder string sample_QPixmap sample_scale sample_json_string
              sample_root "other" (sample_listing 3) s in
  "other" <> "" /\ recognized (sample_listing 3) <> []
  /\ events string s = [(0%Z, Image "780x430:dir/img0.png")]
  /\ image_folder string s' = "other"
  /\ events string s `prefix_of` events string s'
  /\ cache string (Step ImageReady s') !! 0%Z
     = Some (Image "780x430:dir/img0.png").
Proof.
  intros s s'.
  assert (H1 : "other" <> "") by discriminate.
  assert (H2 : recognized (sample_listing 3) <> [])
    by (vm_compute; discriminate).
  assert (H3 : events string s = [(0%Z, Image "780x430:dir/img0.png")])
    by (vm_compute; reflexivity).
  destruct (reload_keeps_queue string sample_QPixmap sample_scale
              sample_json_string sample_root s "other" (sample_listing 3)
              H1 H2) as (_ & A & _ & _ & _ & _ & _ & _ & B & C).
  split; [exact H1|]. split; [exact H2|]. split; [exact H3|].
  split; [exact A|]. split; [exact B|]. exact (C _ _ _ H3).
Defined.

Lemma loaders_tile_sequence_witness :
  let tr := repeat (Label "portrait") 10 in
  let s := Run tr (Start "dir" (sample_listing 50)) in
  let l := {| ld_images := recognized (sample_listing 50); ld_folder := "dir";
              start_index := 20; running := true; thread := AtLoop 20 |} in
  "dir" <> "" /\ recognized (sample_listing 50) <> [] /\ session_trace tr
  /\ heap string s !! 1 = Some l
  /\ loaded_up_to string s = (20 * len (heap string s))%Z
  /\ loader string s = Some (length (heap string s) - 1)
  /\ start_index l = (20 * Z.of_nat 1)%Z.
Proof.
  intros tr s l.
  assert (H1 : "dir" <> "") by discriminate.
  assert (H2 : recognized (sample_listing 50) <> [])
    by (vm_compute; discriminate).
  assert (H3 : session_trace tr) by (apply sample_session_trace; reflexivity).
  assert (H4 : heap string s !! 1 = Some l) by (vm_compute; reflexivity).
  destruct (loaders_tile_sequence string sample_QPixmap sample_scale
              sample_json_string sample_root "dir" (sample_listing 50) tr 1 l
              H1 H2 H3 H4) as (A & B & C & _).
  split; [exact H1|]. split; [exact H2|]. split; [exact H3|].
  split; [exact H4|]. split; [exact A|]. split; [exact B|exact C].
Defined.

Lemma cache_stays_small_witness :
  let tr := [LoaderStep 1; LoaderStep 1; ImageReady] in
  let s := Run tr (Reload "dir" (sample_listing 20) Used) in
  let s' := Step (Label "portrait") s in
  "dir" <> "" /\ recognized (sample_listing 20) <> []
  /\ events string Used = [] /\ running_loaders string Used = []
  /\ session_trace tr
  /\ (current_index string s + 1 < len (recognized (sample_listing 20)))%Z
  /\ cache string s !! 0%Z = Some (Image "780x430:dir/img0.png")
  /\ (0 <= 0 < loaded_up_to string s)%Z
  /\ size (cache string s') <= 35.
Proof.
  intros tr s s'.
  assert (H1 : "dir" <> "") by discriminate.
  assert (H2 : recognized (sample_listing 20) <> [])
    by (vm_compute; discriminate).
  assert (He : events string Used = []) by (vm_compute; reflexivity).
  assert (Hr : running_loaders string Used = []) by (vm_compute; reflexivity).
  assert (H3 : session_trace tr) by (apply sample_session_trace; reflexivity).
  assert (H4 : (current_index string s + 1
                < len (recognized (sample_listing 20)))%Z) by evaluate.
  assert (H5 : cache string s !! 0%Z = Some (Image "780x430:dir/img0.png"))
    by (vm_compute; reflexivity).
  destruct (cache_stays_small string sample_QPixmap sample_scale
              sample_json_string sample_root Used "dir" (sample_listing 20) tr
              "portrait" H1 H2 He Hr H3) as (A & _ & B).
  split; [exact H1|]. split; [exact H2|]. split; [exact He|].
  split; [exact Hr|]. split; [exact H3|].
  split; [exact H4|]. split; [exact H5|].
  split; [exact (proj1 (A _ _ H5))|exact (proj2 (B H4))].
Defined.

(** * The preparation pipeline *)

Section PipelineFacts.

Variable Image : Type.
Variable load_image : string -> option Image.
Variable ocr_image : string -> option string.
Variable suffix stem : string -> string.
Variable validates : Pipeline.OCRData -> bool.
Variable prints writes : string -> bool.
Variable dumps : list Pipeline.OCRData -> bool.

Local Abbreviation try_image :=
  (Pipeline.try_image Image load_image ocr_image stem validates).
Local Abbreviation process_loop :=
  (Pipeline.process_loop Image load_image ocr_image stem validates prints).
Local Abbreviation save_failed_ids := (Pipeline.save_failed_ids writes).
Local Abbreviation process_images :=
  (Pipeline.process_images Image load_image ocr_image suffix stem validates
     prints writes dumps).
Local Abbreviation images_of := (Pipeline.images_of suffix).

(** The failure of an image can be reported. *)
Local Abbreviation reportable orientations :=
  (fun n => match try_image orientations n with
            | Some _ => true
            | None => prints n
            end).

Lemma forallb_false {A} (f : A -> bool) (l : list A) :
  forallb f l = false <-> exists x, x ∈ l /\ f x = false.
Proof.
  induction l as [|a l IH]; cbn [forallb].
  - split; [discriminate|]. intros (x & H & _). inversion H.
  - rewrite andb_false_iff, IH. split.
    + intros [H|(x & Hx & Hf)]; [exists a|exists x];
        (split; [|assumption]); [apply list_elem_of_here|].
      now apply list_elem_of_further.
    + intros (x & Hx & Hf). apply elem_of_cons in Hx as [->|Hx];
        [now left|right; eauto].
Qed.

Lemma omap_cons {A B} (f : A -> option B) x l :
  omap f (x :: l)
  = match f x with Some y => y :: omap f l | None => omap f l end.
Proof. reflexivity. Qed.

Lemma process_loop_closed orientations images : forall ok failed,
  process_loop orientations images (ok, failed)
  = if forallb (reportable orientations) images
    then Some (ok ++ omap (try_image orientations) images,
               failed ++ List.filter
                           (fun n => bool_decide
                                       (try_image orientations n = None))
                           images)
    else None.
Proof.
  unfold Pipeline.process_loop.
  induction images as [|n images IH]; intros ok failed;
    cbn [foldl List.filter forallb].
  - now rewrite !app_nil_r.
  - rewrite omap_cons.
    destruct (try_image orientations n) as [d|] eqn:E.
    + rewrite IH, bool_decide_eq_false_2 by discriminate.
      cbn [andb]. now rewrite <- !app_assoc.
    + rewrite bool_decide_eq_true_2 by reflexivity.
      destruct (prints n); cbn [andb].
      * rewrite IH. now rewrite <- !app_assoc.
      * clear. induction images as [|m images IH]; [reflexivity|exact IH].
Qed.

Lemma try_image_Some orientations n d :
  try_image orientations n = Some d <->
  exists image label,
    load_image n = Some image
    /\ ocr_image (stem n) = Some (Pipeline.transcript d)
    /\ orientations !! n = Some label
    /\ Pipeline.name d = n
    /\ Pipeline.url d = Pipeline.get_image_url n
    /\ Pipeline.orientation d = Pipeline.determine_orientation label
    /\ validates d = true.
Proof.
  unfold Pipeline.try_image. split.
  - destruct (load_image n) as [image|]; [|discriminate].
    destruct (ocr_image (stem n)) as [t|]; [|discriminate].
    destruct (orientations !! n) as [label|]; [|discriminate].
    cbv zeta. destruct (validates _) eqn:V; [|discriminate].
    intros [= <-]. exists image, label. simpl. auto 10.
  - intros (image & label & -> & -> & -> & <- & E1 & E2 & V).
    destruct d as [n' u o t]. simpl in *. subst. now rewrite V.
Qed.

Lemma try_image_None orientations n :
  try_image orientations n = None <->
  load_image n = None \/ ocr_image (stem n) = None
  \/ orientations !! n = None
  \/ exists t label,
       ocr_image (stem n) = Some t /\ orientations !! n = Some label
       /\ validates {| Pipeline.name := n;
                       Pipeline.url := Pipeline.get_image_url n;
                       Pipeline.orientation :=
                         Pipeline.determine_orientation label;
                       Pipeline.transcript := t |} = false.
Proof.
  unfold Pipeline.try_image.
  destruct (load_image n); [|split; auto].
  destruct (ocr_image (stem n)) as [t|]; [|split; auto].
  destruct (orientations !! n) as [label|]; [|split; auto].
  cbv zeta. destruct (validates _) eqn:V.
  - split; [discriminate|].
    intros [|[|[|(t' & label' & [= <-] & [= <-] & V')]]];
      try discriminate. congruence.
  - split; [|reflexivity]. intros _. right. right. right. eauto.
Qed.

Lemma processed_names orientations images :
  map Pipeline.name (omap (try_image orientations) images)
  = List.filter (fun n => bool_decide (try_image orientations n <> None))
      images.
Proof.
  induction images as [|n images IH]; [reflexivity|].
  cbn [List.filter]. rewrite omap_cons.
  destruct (try_image orientations n) as [d|] eqn:E.
  - rewrite bool_decide_eq_true_2 by discriminate.
    cbn [map]. rewrite IH. f_equal.
    apply try_image_Some in E.
    now destruct E as (? & ? & ? & ? & ? & ? & ? & ?).
  - rewrite bool_decide_eq_false_2 by (intros N; now apply N). exact IH.
Qed.

Lemma filter_sublist {A} (f : A -> bool) l : List.filter f l `sublist_of` l.
Proof.
  induction l as [|x l IH]; cbn [List.filter]; [constructor|].
  destruct (f x); [now apply sublist_skip|now apply sublist_cons].
Qed.

Lemma filter_split {A} (f g : A -> bool) l :
  (forall x, g x = negb (f x)) ->
  List.filter f l ++ List.filter g l ≡ₚ l.
Proof.
  intros H. induction l as [|x l IH]; cbn [List.filter]; [reflexivity|].
  rewrite H. destruct (f x); simpl.
  - now rewrite IH.
  - now rewrite <- Permutation_middle, IH.
Qed.

(** X14. When the loop of [process_images] comes to its end, it has put
    every image of the folder into exactly one of its two lists, keeping the
    order of the folder: an image fails when it cannot be opened, has no
    transcript, has no label in the orientation file or gives a record that
    pydantic refuses, and only then; every record carries the image's own
    name, the URL made from it, its transcript and the orientation of its
    label.  The loop comes to its end exactly when the error line of every
    failing image can be printed; otherwise, and when one of the two files
    cannot be written, [process_images] raises.  When it returns, the two
    counts it prints add up to the number of images. *)
Theorem every_image_processed_or_failed
    (listing : list string) (orientations : gmap string Pipeline.Json) :
  let images := images_of listing in
  (forall ok failed_ids,
     process_loop orientations images ([], []) = Some (ok, failed_ids) ->
     (forall n, n ∈ failed_ids <->
        n ∈ images /\ try_image orientations n = None)
     /\ (forall d, d ∈ ok <->
           Pipeline.name d ∈ images /\
           exists image label,
             load_image (Pipeline.name d) = Some image
             /\ ocr_image (stem (Pipeline.name d))
                = Some (Pipeline.transcript d)
             /\ orientations !! Pipeline.name d = Some label
             /\ Pipeline.url d = Pipeline.get_image_url (Pipeline.name d)
             /\ Pipeline.orientation d = Pipeline.determine_orientation label
             /\ validates d = true)
     /\ map Pipeline.name ok ++ failed_ids ≡ₚ images
     /\ map Pipeline.name ok `sublist_of` images
     /\ failed_ids `sublist_of` images
     /\ Forall (fun n => prints n = true) failed_ids
     /\ process_images listing orientations =
        (if dumps ok
         then match save_failed_ids failed_ids with
              | Some text =>
                  Some {| Pipeline.b1 := ok;
                          Pipeline.failed_b1 := text;
                          Pipeline.processed := length ok;
                          Pipeline.failed := length failed_ids |}
              | None => None
              end
         else None))
  /\ (forall n,
        try_image orientations n = None <->
        load_image n = None \/ ocr_image (stem n) = None
        \/ orientations !! n = None
        \/ exists t label,
             ocr_image (stem n) = Some t /\ orientations !! n = Some label
             /\ validates {| Pipeline.name := n;
                             Pipeline.url := Pipeline.get_image_url n;
                             Pipeline.orientation :=
                               Pipeline.determine_orientation label;
                             Pipeline.transcript := t |} = false)
  /\ (process_loop orientations images ([], []) = None <->
      exists n, n ∈ images /\ try_image orientations n = None
                /\ prints n = false)
  /\ (process_loop orientations images ([], []) = None ->
      process_images listing orientations = None)
  /\ (forall out, process_images listing orientations = Some out ->
        Pipeline.processed out + Pipeline.failed out = length images
        /\ length (Pipeline.b1 out) = Pipeline.processed out).
Proof.
  intros images.
  pose proof (process_loop_closed orientations images [] []) as E.
  cbn [app] in E.
  assert (P : map Pipeline.name (omap (try_image orientations) images)
              ++ List.filter
                   (fun n => bool_decide (try_image orientations n = None))
                   images ≡ₚ images).
  { rewrite processed_names. apply filter_split. intros n.
    destruct (try_image orientations n);
      [now rewrite bool_decide_eq_false_2, bool_decide_eq_true_2
         by discriminate|].
    rewrite bool_decide_eq_true_2 by reflexivity.
    now rewrite bool_decide_eq_false_2 by (intros N; now apply N). }
  assert (R : forallb (reportable orientations) images = false <->
              exists n, n ∈ images /\ try_image orientations n = None
                        /\ prints n = false).
  { rewrite forallb_false. split.
    - intros (n & Hn & Hr). exists n. split; [exact Hn|].
      destruct (try_image orientations n); [discriminate|auto].
    - intros (n & Hn & Ht & Hp). exists n. split; [exact Hn|].
      now rewrite Ht. }
  split; [|split; [|split; [|split]]].
  - intros ok failed_ids Hl. rewrite E in Hl.
    destruct (forallb (reportable orientations) images) eqn:F;
      [|discriminate].
    injection Hl as <- <-.
    split; [|split; [|split; [|split; [|split; [|split]]]]].
    + intros n. rewrite elem_of_filter_bool, bool_decide_eq_true. tauto.
    + intros d. rewrite list_elem_of_omap. split.
      * intros (n & Hn & Hd). apply try_image_Some in Hd.
        destruct Hd as (image & label & H1 & H2 & H3 & <- & H5 & H6 & H7).
        split; [exact Hn|]. exists image, label. auto 10.
      * intros (Hn & image & label & H1 & H2 & H3 & H5 & H6 & H7).
        exists (Pipeline.name d). split; [exact Hn|].
        apply try_image_Some. exists image, label. auto 10.
    + exact P.
    + rewrite processed_names. apply filter_sublist.
    + apply filter_sublist.
    + apply Forall_forall. intros n Hn.
      apply elem_of_filter_bool in Hn as [Hn Ht].
      apply bool_decide_eq_true in Ht.
      rewrite forallb_forall in F.
      specialize (F n (proj1 (list_elem_of_In _ _) Hn)).
      cbv beta in F. now rewrite Ht in F.
    + unfold Pipeline.process_images. fold images. now rewrite E.
  - apply try_image_None.
  - rewrite E, <- R.
    destruct (forallb (reportable orientations) images);
      split; congruence.
  - intros Hl. unfold Pipeline.process_images. fold images. now rewrite Hl.
  - intros out. unfold Pipeline.process_images. fold images. rewrite E.
    destruct (forallb (reportable orientations) images); [|discriminate].
    destruct (dumps _); [|discriminate].
    destruct (save_failed_ids _); [|discriminate].
    intros [= <-]. cbn [Pipeline.processed Pipeline.failed Pipeline.b1].
    split; [|reflexivity].
    apply Permutation_length in P. now rewrite length_app, length_map in P.
Qed.

End PipelineFacts.

(** ** The pipeline on a sample folder *)

Lemma every_image_processed_or_failed_witness :
  let listing := ["a.png"; "notes.txt"; "c.png"; "d.png"] in
  let ok := [ {| Pipeline.name := "a.png";
                 Pipeline.url :=
                   "https://s3.us-east-1.amazonaws.com/bec.data/OCR-Benchmark/B1/a.png";
                 Pipeline.orientation := Pipeline.PORTRAIT;
                 Pipeline.transcript := "text of a" |} ] in
  Pipeline.process_loop unit sample_load_image sample_ocr_image sample_stem
    (fun _ => true) sample_prints sample_orientations
    (Pipeline.images_of sample_suffix listing) ([], [])
  = Some (ok, ["c.png"; "d.png"])
  /\ map Pipeline.name ok ++ ["c.png"; "d.png"]
     ≡ₚ Pipeline.images_of sample_suffix listing
  /\ Pipeline.process_images unit sample_load_image sample_ocr_image
       sample_suffix sample_stem (fun _ => true) sample_prints
       (fun _ => true) (fun _ => true) listing sample_orientations
     = Some {| Pipeline.b1 := ok;
               Pipeline.failed_b1 :=
                 "c.png" +:+ String "010"%char ("d.png" +:+ String "010"%char "");
               Pipeline.processed := 1;
               Pipeline.failed := 2 |}
  /\ Pipeline.process_images unit sample_load_image sample_ocr_image
       sample_suffix sample_stem (fun _ => true) sample_prints
       (fun _ => true) (fun _ => true) (listing ++ ["e.png"])
       sample_orientations
     = None.
Proof.
  intros listing ok.
  assert (H : Pipeline.process_loop unit sample_load_image sample_ocr_image
                sample_stem (fun _ => true) sample_prints sample_orientations
                (Pipeline.images_of sample_suffix listing) ([], [])
              = Some (ok, ["c.png"; "d.png"])) by (vm_compute; reflexivity).
  destruct (every_image_processed_or_failed unit sample_load_image
              sample_ocr_image sample_suffix sample_stem (fun _ => true)
              sample_prints (fun _ => true) (fun _ => true) listing
              sample_orientations) as (A & _).
  destruct (A ok ["c.png"; "d.png"] H) as (_ & _ & P & _ & _ & _ & E).
  destruct (every_image_processed_or_failed unit sample_load_image
              sample_ocr_image sample_suffix sample_stem (fun _ => true)
              sample_prints (fun _ => true) (fun _ => true)
              (listing ++ ["e.png"]) sample_orientations)
    as (_ & _ & B & C & _).
  split; [exact H|]. split; [exact P|].
  split; [rewrite E; vm_compute; reflexivity|].
  apply C, B. exists "e.png".
  split; [apply (bool_decide_unpack _); vm_compute; exact I|].
  split; vm_compute; reflexivity.
Defined.
